(** * Request batching of ludic.training.batching

    A shallow embedding of
      - src/ludic/training/batching/intra_batch_control.py
          (IdentityStrategy, GRPORequestStrategy)
      - src/ludic/training/batching/requests_from_dataset.py
          (make_requests_fn_from_queue, make_dataset_queue_requests_fn,
           make_dataset_sequence_requests_fn)

    Python integers are unbounded and are modelled by [Z]; list positions
    are [nat]; dictionaries with string keys are [gmap string _]; a raised
    exception is the left injection of [result].  The closures returned by
    the factories are modelled by a record of the captured variables and a
    function that takes and returns that record. *)

From Stdlib Require Import ZArith Lia.
From stdpp Require Import gmap strings list fin_maps pretty.

Local Open Scope string_scope.
Local Open Scope list_scope.
Local Open Scope Z_scope.

(** ** Values that cross the boundary *)

(** Modelled from the spec: ludic.types.JSON, which the two modules import;
    the spec only says that kwargs and meta map strings to JSON.  Samples
    are put into kwargs as they are, so they are JSON values here. *)
#[warnings="-register-all"]
Inductive JSON : Type :=
  | JNull
  | JBool (b : bool)
  | JInt (z : Z)
  | JStr (s : string)
  | JList (l : list JSON)
  | JObj (fields : list (string * JSON)).

(** Exceptions the two modules raise, plus the IndexError that the
    subscriptions order[pos] and samples[idx] raise out of range. *)
Inductive exn : Type :=
  | ValueError (msg : string)
  | RequestsExhausted (msg : string)
  | IndexError.

Definition result (A : Type) : Type := exn + A.

Definition ret {A} (a : A) : result A := inr a.
Definition raise {A} (e : exn) : result A := inl e.
Definition bind {A B} (m : result A) (k : A → result B) : result B :=
  match m with
  | inl e => inl e
  | inr a => k a
  end.

Notation "'try!' x ':=' m 'in' k" := (bind m (fun x => k))
  (at level 10, x pattern, m at level 100, k at level 200).

(** ** The two sources of entropy *)

(** random.Random: the three methods the modules call.  [Random_seeded k]
    is [random.Random(k)]; [randint] and [shuffle] return the drawn value
    and the generator's next state. *)
Class Random (R : Type) : Type := {
  Random_seeded : Z → R;
  randint : Z → Z → R → Z * R;
  shuffle : list nat → R → list nat * R
}.

(** shuffle rearranges its argument in place: the result is a permutation *)
Class RandomLaws (R : Type) `{Random R} : Prop := {
  shuffle_Permutation : ∀ (l : list nat) (r : R), (shuffle l r).1 ≡ₚ l
}.

(** uuid.uuid4 followed by str: a token and the next state of the process
    entropy it is drawn from. *)
Class UUIDSource (U : Type) : Type := {
  uuid4 : U → string * U
}.

(** the first n tokens a state will hand out *)
Fixpoint uuid_draws {U} `{UUIDSource U} (n : nat) (u : U) : list string :=
  match n with
  | O => []
  | S n' => let '(t, u') := uuid4 u in t :: uuid_draws n' u'
  end.

(** A concrete generator for examples: a counter. *)
Module Counter.

Definition rng_randint (lo hi : Z) (s : nat) : Z * nat :=
  (lo + Z.of_nat s `mod` (hi - lo + 1), S s).

Definition rng_shuffle (l : list nat) (s : nat) : list nat * nat :=
  (rotate (S s) l, S s).

#[export] Instance rng : Random nat := {|
  Random_seeded := fun k => Z.to_nat (Z.abs k);
  randint := rng_randint;
  shuffle := rng_shuffle
|}.

#[export] Instance uuid : UUIDSource nat := {|
  uuid4 := fun n => ("uuid-" +:+ pretty n, S n)
|}.

End Counter.

Section Batching.

(** ludic.inference.request.InferenceSpec is carried along unread *)
Context {InferenceSpec : Type}.
Context {R : Type} `{Random R}.
Context {U : Type} `{UUIDSource U}.

(** ** Request descriptors (ludic.training.types) *)

(** Modelled from the spec: the three frozen dataclasses the two modules
    import from ludic.training.types, with the fields the spec lists. *)
Record EnvSpec : Type := mkEnvSpec {
  EnvSpec_kind : string;
  EnvSpec_kwargs : gmap string JSON
}.

Record ProtocolSpec : Type := mkProtocolSpec {
  ProtocolSpec_kind : string;
  ProtocolSpec_kwargs : gmap string JSON
}.

Record RolloutRequest : Type := mkRolloutRequest {
  env : EnvSpec;
  protocol : ProtocolSpec;
  num_episodes : Z;
  env_seed : option Z;
  sampling_seed : option Z;
  inference : option InferenceSpec;
  meta : gmap string JSON
}.

(** ** intra_batch_control.py *)

(** The RequestStrategy protocol.  A strategy object may carry state (its
    own generator) and expand may draw from the process entropy. *)
Class RequestStrategy (S : Type) : Type := {
  expand : S → U → list RolloutRequest → list RolloutRequest * S * U
}.

Inductive IdentityStrategy : Type := mkIdentityStrategy.

#[export] Instance IdentityStrategy_expand : RequestStrategy IdentityStrategy := {|
  expand := fun self u requests => (requests, self, u)
|}.

Record GRPORequestStrategy : Type := mkGRPORequestStrategy {
  group_size : Z;
  grpo_rng : R
}.

(** GRPORequestStrategy.__init__; [entropy] is the state random.Random()
    gets from the operating system. *)
Definition GRPORequestStrategy_init (group_size : Z) (entropy : R)
  : result GRPORequestStrategy :=
  if decide (group_size ≤ 0) then
    raise (ValueError ("group_size must be positive, got " +:+ pretty group_size))
  else
    ret (mkGRPORequestStrategy group_size entropy).

(** the body of the inner loop: replace(base_req, ...) *)
Definition variant (base_req : RolloutRequest) (group_env_seed base_sampling_seed : Z)
    (group_id : string) (i : Z) : RolloutRequest :=
  let sampling_seed := base_sampling_seed + i in
  let new_meta := <["group_id" := JStr group_id]> (meta base_req) in
  {| env := env base_req;
     protocol := protocol base_req;
     num_episodes := 1;
     env_seed := Some group_env_seed;
     sampling_seed := Some sampling_seed;
     inference := inference base_req;
     meta := new_meta |}.

(** for i in range(self.group_size): ... append(new_req) *)
Definition group_of (G : Z) (base_req : RolloutRequest)
    (group_env_seed base_sampling_seed : Z) (group_id : string) : list RolloutRequest :=
  variant base_req group_env_seed base_sampling_seed group_id <$> seqZ 0 G.

Definition pick_seed (explicit : option Z) (rng : R) : Z * R :=
  match explicit with
  | Some s => (s, rng)
  | None => randint 0 (2 ^ 32 - 1) rng
  end.

(** the outer loop of GRPORequestStrategy.expand *)
Fixpoint expand_loop (G : Z) (requests : list RolloutRequest) (rng : R) (u : U)
    (expanded_requests : list RolloutRequest) : list RolloutRequest * R * U :=
  match requests with
  | [] => (expanded_requests, rng, u)
  | base_req :: rest =>
      let '(group_env_seed, rng1) := pick_seed (env_seed base_req) rng in
      let '(base_sampling_seed, rng2) := pick_seed (sampling_seed base_req) rng1 in
      let '(group_id, u1) := uuid4 u in
      expand_loop G rest rng2 u1
        (expanded_requests ++ group_of G base_req group_env_seed base_sampling_seed group_id)
  end.

Definition GRPO_expand (self : GRPORequestStrategy) (u : U)
    (requests : list RolloutRequest) : list RolloutRequest * GRPORequestStrategy * U :=
  let '(out, rng', u') := expand_loop (group_size self) requests (grpo_rng self) u [] in
  (out, mkGRPORequestStrategy (group_size self) rng', u').

#[export] Instance GRPORequestStrategy_expand : RequestStrategy GRPORequestStrategy := {|
  expand := GRPO_expand
|}.

(** ** requests_from_dataset.py: the queue-backed source *)

(** queue.Queue.get_nowait: an item, or None for queue.Empty, and the
    queue afterwards.  The state type is left open so that it can also
    account for what producers put between two pulls; [fifo] below is
    the queue nobody else touches. *)
Class NonBlockingQueue (Q Item : Type) : Type := {
  get_nowait : Q → option Item * Q
}.

#[export] Instance fifo {Item} : NonBlockingQueue (list Item) Item := {|
  get_nowait := fun q =>
    match q with
    | [] => (None, [])
    | item :: q' => (Some item, q')
    end
|}.

(** what the closure _fn of make_requests_fn_from_queue captures, apart
    from the queue: that one is shared with its producers, so a call
    takes the state it finds the queue in and returns the state it leaves *)
Record QueueRequestsFn (Item S : Type) : Type := mkQueueRequestsFn {
  q_batch_size : Z;
  q_build_request : Item → RolloutRequest;
  q_strategy : option S;
  q_on_empty : string
}.
Arguments mkQueueRequestsFn {Item S}.
Arguments q_batch_size {Item S}.
Arguments q_build_request {Item S}.
Arguments q_strategy {Item S}.
Arguments q_on_empty {Item S}.

Definition make_requests_fn_from_queue {Item S} (batch_size : Z)
    (build_request : Item → RolloutRequest) (strategy : option S)
    (on_empty : string) : result (QueueRequestsFn Item S) :=
  if decide (batch_size ≤ 0) then
    raise (ValueError ("batch_size must be positive, got " +:+ pretty batch_size))
  else
    ret (mkQueueRequestsFn batch_size build_request strategy on_empty).

(** for _ in range(batch_size): try get_nowait except Empty: break.
    [pulls] is a ghost log of what each get_nowait answered. *)
Fixpoint drain {Q Item} `{NonBlockingQueue Q Item}
    (build_request : Item → RolloutRequest) (n : nat) (q : Q)
    (reqs : list RolloutRequest) (pulls : list (option Item))
    : list RolloutRequest * Q * list (option Item) :=
  match n with
  | O => (reqs, q, pulls)
  | S n' =>
      match get_nowait q with
      | (None, q') => (reqs, q', pulls ++ [None])
      | (Some item, q') =>
          drain build_request n' q' (reqs ++ [build_request item]) (pulls ++ [Some item])
      end
  end.

(** strategy.expand(reqs) if strategy is not None else reqs *)
Definition apply_strategy {S} `{RequestStrategy S} (strategy : option S) (u : U)
    (reqs : list RolloutRequest) : list RolloutRequest * option S * U :=
  match strategy with
  | Some s => let '(out, s', u') := expand s u reqs in (out, Some s', u')
  | None => (reqs, None, u)
  end.

(** One call of the closure: the outcome, the closure (its strategy may
    have advanced), the queue and the process entropy afterwards. *)
Definition queue_fn {Q Item S} `{NonBlockingQueue Q Item} `{RequestStrategy S}
    (self : QueueRequestsFn Item S) (q : Q) (u : U)
    : result (list RolloutRequest) * QueueRequestsFn Item S * Q * U :=
  let '(reqs, q', _) :=
    drain (q_build_request self) (Z.to_nat (q_batch_size self)) q [] [] in
  match reqs with
  | [] =>
      if String.eqb (q_on_empty self) "return_empty" then (ret [], self, q', u)
      else (raise (RequestsExhausted "Queue is empty; no more requests to generate."),
            self, q', u)
  | _ :: _ =>
      let '(out, strategy', u') := apply_strategy (q_strategy self) u reqs in
      (ret out,
       mkQueueRequestsFn (q_batch_size self) (q_build_request self) strategy'
         (q_on_empty self),
       q', u')
  end.

(** the ghost log of one call *)
Definition queue_fn_pulls {Q Item S} `{NonBlockingQueue Q Item}
    (self : QueueRequestsFn Item S) (q : Q) : list (option Item) :=
  (drain (q_build_request self) (Z.to_nat (q_batch_size self)) q [] []).2.

(** k calls in a row, each seeing the queue as the previous one left it *)
Fixpoint queue_calls {Q Item S} `{NonBlockingQueue Q Item} `{RequestStrategy S}
    (k : nat) (self : QueueRequestsFn Item S) (q : Q) (u : U)
    : list (result (list RolloutRequest)) :=
  match k with
  | O => []
  | S k' =>
      let '(out, self', q', u') := queue_fn self q u in
      out :: queue_calls k' self' q' u'
  end.

(** ** The keyword arguments the two dataset factories share *)

Record DatasetArgs : Type := mkDatasetArgs {
  batch_size : Z;
  env_kind : string;
  protocol_kind : string;
  inference_spec : option InferenceSpec;
  env_kwargs_fn : option (JSON → gmap string JSON);
  protocol_kwargs : option (gmap string JSON);
  request_meta_fn : option (Z → JSON → gmap string JSON);
  env_seed_fn : option (Z → JSON → Z);
  sampling_seed_fn : option (Z → JSON → Z);
  arg_group_size : Z
}.

Definition env_kwargs_fn_final (a : DatasetArgs) : JSON → gmap string JSON :=
  match env_kwargs_fn a with
  | None => fun sample => {["sample" := sample]}
  | Some f => f
  end.

Definition protocol_kwargs_final (a : DatasetArgs) : gmap string JSON :=
  match protocol_kwargs a with
  | Some kw => kw
  | None => ∅
  end.

Definition env_seed_fn_final (a : DatasetArgs) : Z → JSON → Z :=
  match env_seed_fn a with
  | None => fun idx _sample => idx
  | Some f => f
  end.

Definition sampling_seed_fn_final (a : DatasetArgs) : Z → JSON → Z :=
  match sampling_seed_fn a with
  | None => fun idx _sample => idx
  | Some f => f
  end.

(** strategy = None; if group_size != 1: strategy = GRPORequestStrategy(...) *)
Definition make_strategy (group_size : Z) (entropy : R)
  : result (option GRPORequestStrategy) :=
  if decide (group_size ≠ 1) then
    try! s := GRPORequestStrategy_init group_size entropy in ret (Some s)
  else ret None.

(** The RolloutRequest both factories build for (idx, sample).  The seed
    functions are typed to return int, on which int(...) is the identity. *)
Definition build (a : DatasetArgs) (idx : Z) (sample : JSON) : RolloutRequest :=
  let meta :=
    match request_meta_fn a with
    | Some meta_fn => meta_fn idx sample
    | None => ∅
    end in
  {| env := mkEnvSpec (env_kind a) (env_kwargs_fn_final a sample);
     protocol := mkProtocolSpec (protocol_kind a) (protocol_kwargs_final a);
     num_episodes := 1;
     env_seed := Some (env_seed_fn_final a idx sample);
     sampling_seed := Some (sampling_seed_fn_final a idx sample);
     inference := inference_spec a;
     meta := meta |}.

(** _build of make_dataset_queue_requests_fn *)
Definition _build (a : DatasetArgs) (item : Z * JSON) : RolloutRequest :=
  let '(idx, sample) := item in build a idx sample.

Definition make_dataset_queue_requests_fn (a : DatasetArgs) (on_empty : string)
    (entropy : R) : result (QueueRequestsFn (Z * JSON) GRPORequestStrategy) :=
  try! strategy := make_strategy (arg_group_size a) entropy in
  make_requests_fn_from_queue (batch_size a) (_build a) strategy on_empty.

(** ** requests_from_dataset.py: the sequence-backed source *)

(** what the closure _fn of make_dataset_sequence_requests_fn captures;
    rng, order and pos are the variables it assigns to *)
Record SequenceRequestsFn : Type := mkSequenceRequestsFn {
  samples : list JSON;
  args : DatasetArgs;
  do_shuffle : bool;
  rng : R;
  order : list nat;
  pos : nat;
  strategy : option GRPORequestStrategy
}.

(** order = list(range(len(samples))); if shuffle: rng.shuffle(order) *)
Definition fresh_order (n : nat) (do_shuffle : bool) (rng : R) : list nat * R :=
  let order := seq 0 n in
  if do_shuffle then shuffle order rng else (order, rng).

Definition make_dataset_sequence_requests_fn (samples : list JSON) (a : DatasetArgs)
    (do_shuffle : bool) (rng_seed : Z) (entropy : R) : result SequenceRequestsFn :=
  match samples with
  | [] => raise (ValueError "samples must be non-empty")
  | _ :: _ =>
      let rng := Random_seeded rng_seed in
      let '(order, rng) := fresh_order (length samples) do_shuffle rng in
      let pos := O in
      try! strategy := make_strategy (arg_group_size a) entropy in
      ret (mkSequenceRequestsFn samples a do_shuffle rng order pos strategy)
  end.

Definition with_cursor (self : SequenceRequestsFn) (rng : R) (order : list nat)
    (pos : nat) : SequenceRequestsFn :=
  mkSequenceRequestsFn (samples self) (args self) (do_shuffle self) rng order pos
    (strategy self).

(** if pos >= len(order): pos = 0; order = ...; if shuffle: rng.shuffle(order) *)
Definition wrap (self : SequenceRequestsFn) : SequenceRequestsFn :=
  if decide (length (order self) ≤ pos self)%nat then
    let '(order, rng) :=
      fresh_order (length (samples self)) (do_shuffle self) (rng self) in
    with_cursor self rng order O
  else self.

(** for _ in range(batch_size): ... reqs.append(RolloutRequest(...)).
    [seen] is a ghost log of the indices idx served, in order. *)
Fixpoint sequence_loop (n : nat) (self : SequenceRequestsFn)
    (reqs : list RolloutRequest) (seen : list nat)
    : result (list RolloutRequest) * SequenceRequestsFn * list nat :=
  match n with
  | O => (ret reqs, self, seen)
  | S n' =>
      let self := wrap self in
      match order self !! pos self with
      | None => (raise IndexError, self, seen)
      | Some idx =>
          let self := with_cursor self (rng self) (order self) (S (pos self)) in
          match samples self !! idx with
          | None => (raise IndexError, self, seen)
          | Some sample =>
              sequence_loop n' self
                (reqs ++ [build (args self) (Z.of_nat idx) sample]) (seen ++ [idx])
          end
      end
  end.

Definition with_strategy (self : SequenceRequestsFn)
    (strategy : option GRPORequestStrategy) : SequenceRequestsFn :=
  mkSequenceRequestsFn (samples self) (args self) (do_shuffle self) (rng self)
    (order self) (pos self) strategy.

(** One call of the closure: the outcome, the closure and the process
    entropy afterwards. *)
Definition sequence_fn (self : SequenceRequestsFn) (u : U)
    : result (list RolloutRequest) * SequenceRequestsFn * U :=
  match sequence_loop (Z.to_nat (batch_size (args self))) self [] [] with
  | (inl e, self', _) => (inl e, self', u)
  | (inr reqs, self', _) =>
      let '(out, strategy', u') := apply_strategy (strategy self') u reqs in
      (ret out, with_strategy self' strategy', u')
  end.

(** the ghost log of one call *)
Definition sequence_fn_seen (self : SequenceRequestsFn) : list nat :=
  (sequence_loop (Z.to_nat (batch_size (args self))) self [] []).2.

(** the requests of one call before the strategy is applied *)
Definition sequence_fn_base (self : SequenceRequestsFn) : result (list RolloutRequest) :=
  (sequence_loop (Z.to_nat (batch_size (args self))) self [] []).1.1.

(** k calls in a row: the outcomes, the indices served by each call and
    the closure and entropy after the last one *)
Fixpoint sequence_calls (k : nat) (self : SequenceRequestsFn) (u : U)
    : list (result (list RolloutRequest)) * list (list nat) * SequenceRequestsFn * U :=
  match k with
  | O => ([], [], self, u)
  | S k' =>
      let seen := sequence_fn_seen self in
      let '(out, self', u') := sequence_fn self u in
      let '(outs, seens, self'', u'') := sequence_calls k' self' u' in
      (out :: outs, seen :: seens, self'', u'')
  end.

(** ** Auxiliary: the invariant and the visitation stream of the source *)

(** the closure make_dataset_sequence_requests_fn returns, when it returns one *)
Definition initial (samples : list JSON) (a : DatasetArgs)
    (do_shuffle : bool) (rng_seed : Z) (entropy : R) : SequenceRequestsFn :=
  let first := fresh_order (length samples) do_shuffle (Random_seeded rng_seed) in
  mkSequenceRequestsFn samples a do_shuffle first.2 first.1 O
    (if decide (arg_group_size a ≠ 1)
     then Some (mkGRPORequestStrategy (arg_group_size a) entropy) else None).

(** the order is a rearrangement of all indices of a non-empty dataset *)
Definition valid_source (self : SequenceRequestsFn) : Prop :=
  (0 < length (samples self))%nat ∧
  order self ≡ₚ seq 0 (length (samples self)).

(** idx is a position of the dataset and r is what is built for it *)
Definition served (self : SequenceRequestsFn) (idx : nat) (r : RolloutRequest) : Prop :=
  ∃ sample,
    samples self !! idx = Some sample ∧
    r = build (args self) (Z.of_nat idx) sample.

(** two states of one closure: only rng, order and pos may differ *)
Definition same_setup (self self' : SequenceRequestsFn) : Prop :=
  samples self' = samples self ∧ args self' = args self ∧
  do_shuffle self' = do_shuffle self ∧ strategy self' = strategy self.

(** both seeds are set *)
Definition explicit_seeds (r : RolloutRequest) : Prop :=
  is_Some (env_seed r) ∧ is_Some (sampling_seed r).

(** the seeds of a request, side by side *)
Definition seeds (r : RolloutRequest) : option Z * option Z :=
  (env_seed r, sampling_seed r).

(** the same keyword arguments with other seed functions *)
Definition with_seed_fns (a : DatasetArgs) (f g : option (Z → JSON → Z)) : DatasetArgs :=
  mkDatasetArgs (batch_size a) (env_kind a) (protocol_kind a) (inference_spec a)
    (env_kwargs_fn a) (protocol_kwargs a) (request_meta_fn a) f g (arg_group_size a).

(** the strategy is the one the factory builds for group_size *)
Definition strategy_ok (self : SequenceRequestsFn) : Prop :=
  match strategy self with
  | None => arg_group_size (args self) = 1
  | Some s => group_size s = arg_group_size (args self)
  end.

(** the orders of j successive epochs drawn from rng, one after the other *)
Fixpoint epochs (j n : nat) (do_shuffle : bool) (rng : R) : list nat :=
  match j with
  | O => []
  | S j' =>
      let '(order, rng') := fresh_order n do_shuffle rng in
      order ++ epochs j' n do_shuffle rng'
  end.

(** what is left of the current order, followed by j further epochs *)
Definition stream_from (self : SequenceRequestsFn) (j : nat) : list nat :=
  drop (pos self) (order self)
    ++ epochs j (length (samples self)) (do_shuffle self) (rng self).

(** ** Auxiliary: what expand settles on for each base request *)

(** the (env seed, base sampling seed, group id) of every group, in the
    order expand_loop chooses them *)
Fixpoint group_choices (requests : list RolloutRequest) (rng : R) (u : U)
    : list (Z * Z * string) * R * U :=
  match requests with
  | [] => ([], rng, u)
  | base_req :: rest =>
      let '(group_env_seed, rng1) := pick_seed (env_seed base_req) rng in
      let '(base_sampling_seed, rng2) := pick_seed (sampling_seed base_req) rng1 in
      let '(group_id, u1) := uuid4 u in
      let '(cs, rng', u') := group_choices rest rng2 u1 in
      ((group_env_seed, base_sampling_seed, group_id) :: cs, rng', u')
  end.

Definition group_for (G : Z) (base_req : RolloutRequest) (c : Z * Z * string)
    : list RolloutRequest :=
  group_of G base_req c.1.1 c.1.2 c.2.

(** ** GRPORequestStrategy.expand over a store of objects

    The same loop with object identity made explicit: request objects and
    their meta dicts live in a store, replace(...) and the dict display
    allocate, and nothing else writes. *)

Definition loc : Type := positive.

Record RequestObject : Type := mkRequestObject {
  o_env : EnvSpec;
  o_protocol : ProtocolSpec;
  o_num_episodes : Z;
  o_env_seed : option Z;
  o_sampling_seed : option Z;
  o_inference : option InferenceSpec;
  o_meta : loc
}.

Inductive object : Type :=
  | ODict (d : gmap string JSON)
  | ORequest (o : RequestObject).

Definition alloc (h : gmap loc object) (o : object) : loc * gmap loc object :=
  let l := fresh (dom h) in (l, <[l := o]> h).

Definition get_request (h : gmap loc object) (l : loc) : option RequestObject :=
  match h !! l with
  | Some (ORequest o) => Some o
  | _ => None
  end.

Definition get_dict (h : gmap loc object) (l : loc) : option (gmap string JSON) :=
  match h !! l with
  | Some (ODict d) => Some d
  | _ => None
  end.

(** the request value a location stands for *)
Definition request_at (h : gmap loc object) (l : loc) : option RolloutRequest :=
  o ← get_request h l;
  d ← get_dict h (o_meta o);
  Some {| env := o_env o;
          protocol := o_protocol o;
          num_episodes := o_num_episodes o;
          env_seed := o_env_seed o;
          sampling_seed := o_sampling_seed o;
          inference := o_inference o;
          meta := d |}.

(** one pass of the inner loop; None stands for a dangling reference *)
Definition store_variant (h : gmap loc object) (base_req : loc)
    (group_env_seed base_sampling_seed : Z) (group_id : string) (i : Z)
    : option (loc * gmap loc object) :=
  o ← get_request h base_req;
  d ← get_dict h (o_meta o);
  let sampling_seed := base_sampling_seed + i in
  let '(new_meta, h) := alloc h (ODict (<["group_id" := JStr group_id]> d)) in
  let '(new_req, h) :=
    alloc h (ORequest {| o_env := o_env o;
                         o_protocol := o_protocol o;
                         o_num_episodes := 1;
                         o_env_seed := Some group_env_seed;
                         o_sampling_seed := Some sampling_seed;
                         o_inference := o_inference o;
                         o_meta := new_meta |}) in
  Some (new_req, h).

Fixpoint store_group (range : list Z) (h : gmap loc object) (base_req : loc)
    (group_env_seed base_sampling_seed : Z) (group_id : string)
    (expanded_requests : list loc) : option (list loc * gmap loc object) :=
  match range with
  | [] => Some (expanded_requests, h)
  | i :: range' =>
      '(new_req, h') ←
        store_variant h base_req group_env_seed base_sampling_seed group_id i;
      store_group range' h' base_req group_env_seed base_sampling_seed group_id
        (expanded_requests ++ [new_req])
  end.

Fixpoint store_expand_loop (G : Z) (requests : list loc) (rng : R) (u : U)
    (h : gmap loc object) (expanded_requests : list loc)
    : option (list loc * R * U * gmap loc object) :=
  match requests with
  | [] => Some (expanded_requests, rng, u, h)
  | base_req :: rest =>
      o ← get_request h base_req;
      let '(group_env_seed, rng1) := pick_seed (o_env_seed o) rng in
      let '(base_sampling_seed, rng2) := pick_seed (o_sampling_seed o) rng1 in
      let '(group_id, u1) := uuid4 u in
      '(expanded_requests, h1) ←
        store_group (seqZ 0 G) h base_req group_env_seed base_sampling_seed group_id
          expanded_requests;
      store_expand_loop G rest rng2 u1 h1 expanded_requests
  end.

End Batching.

Arguments mkQueueRequestsFn {InferenceSpec Item S}.
Arguments q_batch_size {InferenceSpec Item S}.
Arguments q_build_request {InferenceSpec Item S}.
Arguments q_strategy {InferenceSpec Item S}.
Arguments q_on_empty {InferenceSpec Item S}.

(** ** Auxiliary: accounting for what a call draws *)

(** randint(0, 2**32 - 1) never leaves its interval *)
Class RandomRange (R : Type) `{Random R} : Prop := {
  randint_range : ∀ (lo hi : Z) (r : R),
    lo ≤ hi → lo ≤ (randint lo hi r).1 ≤ hi
}.

Section Accounting.

Context {InferenceSpec : Type}.
Context {R : Type} `{Random R}.
Context {U : Type} `{UUIDSource U}.

(** the generator after n fallback draws *)
Definition rng_after (n : nat) (rng : R) : R :=
  Nat.iter n (λ r, (randint 0 (2 ^ 32 - 1) r).2) rng.

(** the process entropy after n tokens *)
Definition uuid_after (n : nat) (u : U) : U :=
  Nat.iter n (λ w, (uuid4 w).2) u.

(** how many seeds a request leaves to the strategy *)
Definition missing_of (r : @RolloutRequest InferenceSpec) : nat :=
  ((match env_seed r with Some _ => 0 | None => 1 end)
   + (match sampling_seed r with Some _ => 0 | None => 1 end))%nat.

Definition missing_seeds (requests : list (@RolloutRequest InferenceSpec)) : nat :=
  sum_list (missing_of <$> requests).

(** the outcome of a queue call when the pulls obtained nothing *)
Definition on_exhausted (on_empty : string)
    : result (list (@RolloutRequest InferenceSpec)) :=
  if String.eqb on_empty "return_empty" then ret []
  else raise (RequestsExhausted "Queue is empty; no more requests to generate.").

(** the meta dict a request object refers to *)
Definition meta_loc (h : gmap loc (@object InferenceSpec)) (l : loc) : option loc :=
  o_meta <$> get_request h l.

(** the locations [out] hold requests whose meta dicts are at [metas]; all
    of these were allocated after the store was [h], and no two coincide *)
Definition freshly_allocated (h h' : gmap loc (@object InferenceSpec))
    (out metas : list loc) : Prop :=
  h ⊆ h' ∧
  Forall2 (λ l m, meta_loc h' l = Some m) out metas ∧
  NoDup (out ++ metas) ∧
  ∀ l, l ∈ out ++ metas → h !! l = None ∧ is_Some (h' !! l).

End Accounting.

(** ** Concrete inputs *)

Module Examples.

Import Counter.

Definition A : JSON := JStr "A".
Definition B : JSON := JStr "B".
Definition C : JSON := JStr "C".

(** keyword arguments with every optional function left out *)
Definition plain_args (batch_size group_size : Z) : @DatasetArgs unit :=
  mkDatasetArgs batch_size "gsm8k" "single_agent" None None None None None None
    group_size.

Definition request (env_seed sampling_seed : option Z) (meta : gmap string JSON)
  : @RolloutRequest unit :=
  {| env := mkEnvSpec "gsm8k" {["sample" := A]};
     protocol := mkProtocolSpec "single_agent" ∅;
     num_episodes := 3;
     env_seed := env_seed;
     sampling_seed := sampling_seed;
     inference := None;
     meta := meta |}.

Definition two_requests : list (@RolloutRequest unit) :=
  [ request (Some 7) None {["sample_index" := JInt 7]};
    request None (Some 100) ∅ ].

(** a store holding the first of them at location 2, its meta at 1 *)
Definition one_request_store : gmap loc (@object unit) :=
  {[ 1%positive := ODict {["sample_index" := JInt 7]};
     2%positive := ORequest {| o_env := mkEnvSpec "gsm8k" {["sample" := A]};
                               o_protocol := mkProtocolSpec "single_agent" ∅;
                               o_num_episodes := 3;
                               o_env_seed := Some 7;
                               o_sampling_seed := None;
                               o_inference := None;
                               o_meta := 1%positive |} ]}.

Definition five_items : list (Z * JSON) :=
  [(0, A); (1, B); (2, C); (3, A); (4, B)].

(** the closure make_requests_fn_from_queue returns for batch_size 2 *)
Definition queue_of_two : @QueueRequestsFn unit (Z * JSON) (@GRPORequestStrategy nat) :=
  mkQueueRequestsFn 2 (_build (plain_args 2 1)) None "raise".

(** the closure make_dataset_queue_requests_fn returns for group_size 3 *)
Definition queue_of_groups : @QueueRequestsFn unit (Z * JSON) (@GRPORequestStrategy nat) :=
  mkQueueRequestsFn 2 (_build (plain_args 2 3)) (Some (mkGRPORequestStrategy 3 9%nat))
    "return_empty".

End Examples.

(** * Properties *)

Section Properties.

Context {InferenceSpec : Type}.
Context {R : Type} `{!Random R}.
Context {U : Type} `{!UUIDSource U}.

Local Abbreviation Req := (@RolloutRequest InferenceSpec).
Local Abbreviation Args := (@DatasetArgs InferenceSpec).

(** ** GRPORequestStrategy.expand *)

Lemma length_group_of G (base : Req) e b gid :
  length (group_of G base e b gid) = Z.to_nat G.
Proof. unfold group_of. by rewrite length_fmap, length_seqZ. Qed.

Lemma lookup_group_of G (base : Req) e b gid (i : nat) :
  (i < Z.to_nat G)%nat →
  group_of G base e b gid !! i = Some (variant base e b gid (Z.of_nat i)).
Proof.
  intros Hi. unfold group_of.
  rewrite list_lookup_fmap, lookup_seqZ_lt by lia. done.
Qed.

Lemma expand_loop_choices G (requests : list Req) rng u acc :
  expand_loop G requests rng u acc =
    (acc ++ mjoin (zip_with (group_for G) requests (group_choices requests rng u).1.1),
     (group_choices requests rng u).1.2,
     (group_choices requests rng u).2).
Proof.
  revert rng u acc. induction requests as [|base rest IH]; intros rng u acc; simpl.
  - by rewrite app_nil_r.
  - destruct (pick_seed (env_seed base) rng) as [e rng1].
    destruct (pick_seed (sampling_seed base) rng1) as [b rng2].
    destruct (uuid4 u) as [gid u1] eqn:Hu.
    rewrite IH.
    destruct (group_choices rest rng2 u1) as [[cs rng'] u']; simpl.
    by rewrite <- app_assoc.
Qed.

Lemma group_choices_length (requests : list Req) rng u :
  length (group_choices requests rng u).1.1 = length requests.
Proof.
  revert rng u. induction requests as [|base rest IH]; intros rng u; simpl; [done|].
  destruct (pick_seed (env_seed base) rng) as [e rng1].
  destruct (pick_seed (sampling_seed base) rng1) as [b rng2].
  destruct (uuid4 u) as [gid u1].
  specialize (IH rng2 u1).
  destruct (group_choices rest rng2 u1) as [[cs rng'] u']; simpl in *. by rewrite IH.
Qed.

Lemma group_choices_ids (requests : list Req) rng u :
  (group_choices requests rng u).1.1.*2 = uuid_draws (length requests) u.
Proof.
  revert rng u. induction requests as [|base rest IH]; intros rng u; simpl; [done|].
  destruct (pick_seed (env_seed base) rng) as [e rng1].
  destruct (pick_seed (sampling_seed base) rng1) as [b rng2].
  destruct (uuid4 u) as [gid u1].
  specialize (IH rng2 u1).
  destruct (group_choices rest rng2 u1) as [[cs rng'] u']; simpl in *.
  f_equal. exact IH.
Qed.

Lemma group_choices_explicit (requests : list Req) rng u k base c :
  requests !! k = Some base →
  (group_choices requests rng u).1.1 !! k = Some c →
  (∀ s, env_seed base = Some s → c.1.1 = s) ∧
  (∀ s, sampling_seed base = Some s → c.1.2 = s).
Proof.
  revert rng u k. induction requests as [|r rest IH]; intros rng u k; simpl; [done|].
  destruct (pick_seed (env_seed r) rng) as [e rng1] eqn:He.
  destruct (pick_seed (sampling_seed r) rng1) as [b rng2] eqn:Hb.
  destruct (uuid4 u) as [gid u1].
  specialize (IH rng2 u1).
  destruct (group_choices rest rng2 u1) as [[cs rng'] u']; simpl in *.
  destruct k as [|k]; simpl.
  - intros [= ->] [= <-]; simpl. split; intros s Hs; rewrite Hs in *; simpl in *; congruence.
  - apply IH.
Qed.

Lemma Forall_length_groups G (requests : list Req) (cs : list (Z * Z * string)) :
  Forall (λ l, length l = Z.to_nat G) (zip_with (group_for G) requests cs).
Proof.
  apply Forall_forall. intros l Hl.
  apply elem_of_lookup_zip_with in Hl as (i & base & c & -> & _ & _).
  apply length_group_of.
Qed.

(** where the i-th variant of the k-th base request ends up *)
Lemma expand_loop_lookup G (requests : list Req) rng u k base c (i : nat) :
  requests !! k = Some base →
  (group_choices requests rng u).1.1 !! k = Some c →
  (i < Z.to_nat G)%nat →
  (expand_loop G requests rng u []).1.1 !! (k * Z.to_nat G + i)%nat =
    Some (variant base c.1.1 c.1.2 c.2 (Z.of_nat i)).
Proof.
  intros Hbase Hc Hi. rewrite expand_loop_choices; simpl.
  apply (join_lookup_Some_same_length' (Z.to_nat G)); [apply Forall_length_groups|done|].
  exists (group_for G base c). split.
  - rewrite lookup_zip_with, Hbase; simpl. by rewrite Hc.
  - by apply lookup_group_of.
Qed.

Lemma expand_loop_length G (requests : list Req) rng u :
  length (expand_loop G requests rng u []).1.1 = (length requests * Z.to_nat G)%nat.
Proof.
  rewrite expand_loop_choices; simpl. rewrite length_join.
  rewrite (sum_list_fmap_same (Z.to_nat G)) by apply Forall_length_groups.
  rewrite length_zip_with, group_choices_length. lia.
Qed.

Lemma GRPORequestStrategy_init_pos G (entropy : R) :
  0 < G → GRPORequestStrategy_init G entropy = inr (mkGRPORequestStrategy G entropy).
Proof. intros HG. unfold GRPORequestStrategy_init. case_decide; [lia|done]. Qed.

Lemma GRPORequestStrategy_init_nonpos G (entropy : R) :
  G ≤ 0 →
  GRPORequestStrategy_init G entropy =
    inl (ValueError ("group_size must be positive, got " +:+ pretty G)).
Proof. intros HG. unfold GRPORequestStrategy_init. case_decide; [done|lia]. Qed.

(** C1.  For a group size G > 0 and N base requests, a strategy built by
    GRPORequestStrategy(G) expands them into exactly N*G requests.  The
    request at position k*G + i is the i-th variant of the k-th base
    request: it copies env, protocol and inference, has the group's env
    seed e (the base request's own when it has one), the sampling seed
    b + i (b the base request's own when it has one), num_episodes 1 and
    the group's id under "group_id"; the ids of different groups differ,
    provided the tokens uuid4 hands out during the call do not repeat. *)
Theorem grpo_expand_groups (G : Z) (requests : list Req) (entropy : R) (u : U) :
  0 < G →
  NoDup (uuid_draws (length requests) u) →
  ∃ self out self' u' gids,
    GRPORequestStrategy_init G entropy = inr self ∧
    expand self u requests = (out, self', u') ∧
    length out = (length requests * Z.to_nat G)%nat ∧
    NoDup gids ∧
    ∀ k base, requests !! k = Some base →
      ∃ e b gid,
        gids !! k = Some gid ∧
        (∀ s, env_seed base = Some s → e = s) ∧
        (∀ s, sampling_seed base = Some s → b = s) ∧
        ∀ i : nat, (i < Z.to_nat G)%nat →
          ∃ r, out !! (k * Z.to_nat G + i)%nat = Some r ∧
            env r = env base ∧ protocol r = protocol base ∧
            inference r = inference base ∧
            env_seed r = Some e ∧
            sampling_seed r = Some (b + Z.of_nat i) ∧
            meta r !! "group_id" = Some (JStr gid) ∧
            num_episodes r = 1.
Proof.
  intros HG Hfresh.
  exists (mkGRPORequestStrategy G entropy).
  exists (expand_loop G requests entropy u []).1.1.
  exists (mkGRPORequestStrategy G (expand_loop G requests entropy u []).1.2).
  exists (expand_loop G requests entropy u []).2.
  exists (uuid_draws (length requests) u).
  split; [by apply GRPORequestStrategy_init_pos|].
  split.
  { simpl. unfold GRPO_expand. simpl.
    by destruct (expand_loop G requests entropy u []) as [[out rng'] u']. }
  split; [apply expand_loop_length|].
  split; [done|].
  intros k base Hbase.
  destruct ((group_choices requests entropy u).1.1 !! k) as [c|] eqn:Hc.
  2:{ apply lookup_ge_None in Hc. rewrite group_choices_length in Hc.
      apply lookup_lt_Some in Hbase. lia. }
  destruct (group_choices_explicit requests entropy u k base c Hbase Hc) as [Henv Hsamp].
  exists c.1.1, c.1.2, c.2.
  split.
  { rewrite <- (group_choices_ids requests entropy u).
    by rewrite list_lookup_fmap, Hc. }
  split; [done|]. split; [done|].
  intros i Hi.
  exists (variant base c.1.1 c.1.2 c.2 (Z.of_nat i)).
  split; [by apply expand_loop_lookup|].
  simpl. repeat split; try done.
  apply lookup_insert_eq.
Qed.

(** C9.  Both strategies accept the empty list: expand returns the empty
    list, and neither the strategy's generator nor the process entropy
    has advanced. *)
Theorem expand_empty (G : Z) (entropy : R) (u : U) :
  0 < G →
  expand mkIdentityStrategy u ([] : list Req) = ([], mkIdentityStrategy, u) ∧
  ∃ self,
    GRPORequestStrategy_init G entropy = inr self ∧
    grpo_rng self = entropy ∧
    expand self u ([] : list Req) = ([], self, u).
Proof.
  intros HG. split; [done|].
  exists (mkGRPORequestStrategy G entropy).
  split; [by apply GRPORequestStrategy_init_pos|]. done.
Qed.

(** with both seeds set on every base request nothing is drawn from the
    strategy's generator, whatever generator that is *)
Lemma group_choices_explicit_rng (requests : list Req) (rng : R) (u : U) :
  Forall explicit_seeds requests →
  (group_choices requests rng u).1.2 = rng.
Proof.
  intros Hall. revert rng u. induction Hall as [|r rest [[e He] [b Hb]] _ IH];
    intros rng u; simpl; [done|].
  rewrite He, Hb. simpl. destruct (uuid4 u) as [gid u1].
  specialize (IH rng u1).
  by destruct (group_choices rest rng u1) as [[cs rng'] u'].
Qed.




Lemma build_explicit (a : Args) idx sample : explicit_seeds (build a idx sample).
Proof. split; simpl; eauto. Qed.

(** ** GRPORequestStrategy.expand over the store *)

Local Abbreviation Store := (gmap loc (@object InferenceSpec)).

Lemma get_request_mono (h h' : Store) l o :
  h ⊆ h' → get_request h l = Some o → get_request h' l = Some o.
Proof.
  unfold get_request. intros Hsub Hget.
  destruct (h !! l) as [[d|o']|] eqn:Hl; try done.
  by rewrite (lookup_weaken _ _ _ _ Hl Hsub).
Qed.

Lemma get_dict_mono (h h' : Store) l d :
  h ⊆ h' → get_dict h l = Some d → get_dict h' l = Some d.
Proof.
  unfold get_dict. intros Hsub Hget.
  destruct (h !! l) as [[d'|o]|] eqn:Hl; try done.
  by rewrite (lookup_weaken _ _ _ _ Hl Hsub).
Qed.

Lemma request_at_inv (h : Store) l (r : Req) :
  request_at h l = Some r →
  ∃ o, get_request h l = Some o ∧ get_dict h (o_meta o) = Some (meta r) ∧
    o_env o = env r ∧ o_protocol o = protocol r ∧
    o_num_episodes o = num_episodes r ∧ o_env_seed o = env_seed r ∧
    o_sampling_seed o = sampling_seed r ∧ o_inference o = inference r.
Proof.
  unfold request_at. intros Hr.
  destruct (get_request h l) as [o|] eqn:Ho; simpl in Hr; [|done].
  destruct (get_dict h (o_meta o)) as [d|] eqn:Hd; simpl in Hr; [|done].
  injection Hr as <-. exists o. by split_and!.
Qed.

Lemma request_at_mono (h h' : Store) l (r : Req) :
  h ⊆ h' → request_at h l = Some r → request_at h' l = Some r.
Proof.
  intros Hsub Hr. pose proof Hr as Hr'.
  apply request_at_inv in Hr' as (o & Ho & Hd & _).
  unfold request_at in *.
  rewrite Ho in Hr. simpl in Hr. rewrite Hd in Hr. simpl in Hr.
  rewrite (get_request_mono _ _ _ _ Hsub Ho). simpl.
  by rewrite (get_dict_mono _ _ _ _ Hsub Hd).
Qed.

Lemma store_variant_spec (h : Store) base (r : Req) e b gid i :
  request_at h base = Some r →
  ∃ l h', store_variant h base e b gid i = Some (l, h') ∧ h ⊆ h' ∧
    request_at h' l = Some (variant r e b gid i).
Proof.
  intros Hr. apply request_at_inv in Hr
    as (o & Ho & Hd & Henv & Hprot & _ & _ & _ & Hinf).
  unfold store_variant. rewrite Ho. simpl. rewrite Hd. simpl.
  set (new_meta := fresh (dom h)).
  set (h1 := <[new_meta := ODict (<["group_id" := JStr gid]> (meta r))]> h).
  set (new_req := fresh (dom h1)).
  assert (h !! new_meta = None) as Hfresh1 by apply not_elem_of_dom, is_fresh.
  assert (h1 !! new_req = None) as Hfresh2 by apply not_elem_of_dom, is_fresh.
  assert (new_meta ≠ new_req) as Hne.
  { intros Heq. rewrite <- Heq in Hfresh2. unfold h1 in Hfresh2.
    by rewrite lookup_insert_eq in Hfresh2. }
  eexists _, _. split; [reflexivity|]. split.
  - etrans; by apply insert_subseteq.
  - unfold request_at, get_request. rewrite lookup_insert_eq. simpl.
    unfold get_dict. rewrite lookup_insert_ne by done.
    unfold h1. rewrite lookup_insert_eq. simpl.
    unfold variant. by rewrite Henv, Hprot, Hinf.
Qed.

Lemma store_group_spec range (h : Store) base (r : Req) e b gid acc :
  request_at h base = Some r →
  ∃ ls h', store_group range h base e b gid acc = Some (acc ++ ls, h') ∧ h ⊆ h' ∧
    Forall2 (λ l r', request_at h' l = Some r') ls (variant r e b gid <$> range).
Proof.
  revert h acc. induction range as [|i range IH]; intros h acc Hr; simpl.
  - exists [], h. rewrite app_nil_r. split_and!; [done|done|constructor].
  - destruct (store_variant_spec h base r e b gid i Hr) as (l & h1 & -> & Hsub & Hl).
    simpl.
    destruct (IH h1 (acc ++ [l]) (request_at_mono _ _ _ _ Hsub Hr))
      as (ls & h' & -> & Hsub' & Hls).
    exists (l :: ls), h'. rewrite <- app_assoc. split_and!; [done|by etrans|].
    constructor; [|done]. by eapply request_at_mono.
Qed.

Lemma Forall2_request_at_mono (h h' : Store) ls (rs : list Req) :
  h ⊆ h' →
  Forall2 (λ l r, request_at h l = Some r) ls rs →
  Forall2 (λ l r, request_at h' l = Some r) ls rs.
Proof.
  intros Hsub Hall. eapply Forall2_impl; [exact Hall|].
  intros l r. by apply request_at_mono.
Qed.

(** the loop over the store allocates the requests the loop over values
    computes, and writes nowhere else *)
Lemma expand_loop_acc G (values : list Req) rng u acc :
  expand_loop G values rng u acc =
    (acc ++ (expand_loop G values rng u []).1.1,
     (expand_loop G values rng u []).1.2,
     (expand_loop G values rng u []).2).
Proof. by rewrite !expand_loop_choices. Qed.

Lemma store_expand_loop_spec G requests (values : list Req) rng u (h h0 : Store) acc :
  Forall2 (λ l r, request_at h l = Some r) requests values →
  h ⊆ h0 →
  ∃ ls h',
    store_expand_loop G requests rng u h0 acc =
      Some (acc ++ ls, (expand_loop G values rng u []).1.2,
            (expand_loop G values rng u []).2, h') ∧
    h0 ⊆ h' ∧
    Forall2 (λ l r, request_at h' l = Some r) ls (expand_loop G values rng u []).1.1.
Proof.
  intros Hall. revert rng u h0 acc.
  induction Hall as [|l r requests values Hl _ IH]; intros rng u h0 acc Hsub.
  - simpl. exists [], h0. rewrite app_nil_r. split_and!; [done|done|constructor].
  - apply (request_at_mono _ _ _ _ Hsub) in Hl.
    pose proof Hl as Hl'. apply request_at_inv in Hl'
      as (o & Ho & _ & _ & _ & _ & Henv & Hsamp & _).
    simpl. rewrite Ho. simpl. rewrite Henv, Hsamp.
    destruct (pick_seed (env_seed r) rng) as [e rng1].
    destruct (pick_seed (sampling_seed r) rng1) as [b rng2].
    destruct (uuid4 u) as [gid u1].
    destruct (store_group_spec (seqZ 0 G) h0 l r e b gid acc Hl)
      as (ls1 & h1 & -> & Hsub1 & Hls1).
    simpl.
    destruct (IH rng2 u1 h1 (acc ++ ls1)) as (ls2 & h' & -> & Hsub2 & Hls2);
      [by etrans|].
    rewrite (expand_loop_acc G values rng2 u1 (group_of _ _ _ _ _)). simpl.
    exists (ls1 ++ ls2), h'. rewrite <- app_assoc. split_and!; [done|by etrans|].
    apply Forall2_app; [|done].
    by eapply Forall2_request_at_mono.
Qed.

Lemma GRPO_expand_out G (values : list Req) (rng : R) (u : U) :
  (expand (mkGRPORequestStrategy G rng) u values).1.1
    = (expand_loop G values rng u []).1.1.
Proof.
  simpl. unfold GRPO_expand. simpl.
  by destruct (expand_loop G values rng u []) as [[out rng'] u'].
Qed.

(** C6.  Run over a store in which the locations [requests] hold the
    request values [values], expansion writes to no location that
    existed before, so every input request (and its meta dict) reads as
    before; the locations it returns hold the requests expand computes
    from the values; and in the group of each base request every output
    has the base request's env_seed when that is set, the first output
    has its sampling_seed when that is set, and every output's meta
    agrees with the base request's on all keys but "group_id". *)
Theorem grpo_expand_preserves G (requests : list loc) (values : list Req)
    (rng : R) (u : U) (h : Store) :
  Forall2 (λ l r, request_at h l = Some r) requests values →
  ∃ out rng' u' h',
    store_expand_loop G requests rng u h [] = Some (out, rng', u', h') ∧
    (∀ l o, h !! l = Some o → h' !! l = Some o) ∧
    Forall2 (λ l r, request_at h' l = Some r) requests values ∧
    Forall2 (λ l r, request_at h' l = Some r) out
      (expand (mkGRPORequestStrategy G rng) u values).1.1 ∧
    ∀ k base (i : nat),
      values !! k = Some base → (i < Z.to_nat G)%nat →
      ∃ r,
        (expand (mkGRPORequestStrategy G rng) u values).1.1
          !! (k * Z.to_nat G + i)%nat = Some r ∧
        (∀ s, env_seed base = Some s → env_seed r = Some s) ∧
        (i = 0%nat → ∀ s, sampling_seed base = Some s → sampling_seed r = Some s) ∧
        (∀ key, key ≠ "group_id" → meta r !! key = meta base !! key).
Proof.
  intros Hall.
  destruct (store_expand_loop_spec G requests values rng u h h [] Hall)
    as (ls & h' & Hrun & Hsub & Hout); [done|].
  eexists ls, _, _, h'. split; [exact Hrun|].
  split; [intros l o Hl; by eapply lookup_weaken|].
  split; [by eapply Forall2_request_at_mono|].
  rewrite GRPO_expand_out. split; [done|].
  intros k base i Hbase Hi.
  destruct ((group_choices values rng u).1.1 !! k) as [c|] eqn:Hc.
  2:{ apply lookup_ge_None in Hc. rewrite group_choices_length in Hc.
      apply lookup_lt_Some in Hbase. lia. }
  destruct (group_choices_explicit values rng u k base c Hbase Hc) as [Henv Hsamp].
  exists (variant base c.1.1 c.1.2 c.2 (Z.of_nat i)).
  split; [by apply expand_loop_lookup|]. simpl. split_and!.
  - intros s Hs. by rewrite (Henv s Hs).
  - intros -> s Hs. rewrite (Hsamp s Hs). f_equal. simpl. lia.
  - intros key Hkey. by rewrite lookup_insert_ne.
Qed.

(** ** The queue-backed source *)

Section Queue.

Context {Q Item S : Type} `{!NonBlockingQueue Q Item}.
Context `{!@RequestStrategy InferenceSpec U S}.

Lemma drain_spec (build_request : Item → Req) n (q : Q) reqs pulls :
  ∃ new,
    (drain build_request n q reqs pulls).2 = pulls ++ new ∧
    (drain build_request n q reqs pulls).1.1 =
      reqs ++ (build_request <$> omap id new) ∧
    (length new ≤ n)%nat ∧
    (∀ i, new !! i = Some None → length new = Datatypes.S i) ∧
    ((length new < n)%nat → last new = Some None).
Proof.
  revert q reqs pulls. induction n as [|n IH]; intros q reqs pulls; simpl.
  - exists []. rewrite !app_nil_r. repeat split; try done; simpl; lia.
  - destruct (get_nowait q) as [[item|] q'].
    + destruct (IH q' (reqs ++ [build_request item]) (pulls ++ [Some item]))
        as (new & Hp & Hr & Hlen & Hstop & Hlast).
      exists (Some item :: new). rewrite Hp, Hr, <- !app_assoc. simpl.
      repeat split; try done; try lia.
      * intros [|i]; simpl; [done|]. intros Hi. by rewrite (Hstop i Hi).
      * intros Hlt. rewrite last_cons. rewrite Hlast by lia. done.
    + exists [None]. simpl. rewrite app_nil_r. repeat split; try done; try lia.
      intros [|i]; simpl; [done|]. by rewrite lookup_nil.
Qed.

Lemma make_requests_fn_from_queue_ok batch_size (build_request : Item → Req)
    (strategy : option S) on_empty self :
  make_requests_fn_from_queue batch_size build_request strategy on_empty = inr self →
  0 < batch_size ∧
  self = mkQueueRequestsFn batch_size build_request strategy on_empty.
Proof.
  unfold make_requests_fn_from_queue. case_decide; [done|].
  intros [= <-]. split; [lia|done].
Qed.

Lemma make_requests_fn_from_queue_nonpos batch_size (build_request : Item → Req)
    (strategy : option S) on_empty :
  batch_size ≤ 0 →
  make_requests_fn_from_queue batch_size build_request strategy on_empty =
    inl (ValueError ("batch_size must be positive, got " +:+ pretty batch_size)).
Proof. intros Hb. unfold make_requests_fn_from_queue. case_decide; [done|lia]. Qed.

(** what one call returns, in terms of the items its pulls obtained *)
Lemma queue_fn_result (self : QueueRequestsFn Item S) (q : Q) (u : U) :
  let items := omap id (queue_fn_pulls self q) in
  (queue_fn self q u).1.1.1 =
    match items with
    | [] =>
        if String.eqb (q_on_empty self) "return_empty" then ret []
        else raise (RequestsExhausted "Queue is empty; no more requests to generate.")
    | _ :: _ =>
        ret (apply_strategy (q_strategy self) u (q_build_request self <$> items)).1.1
    end.
Proof.
  unfold queue_fn, queue_fn_pulls.
  destruct (drain_spec (q_build_request self) (Z.to_nat (q_batch_size self)) q [] [])
    as (new & Hp & Hr & _).
  destruct (drain _ _ _ _ _) as [[reqs q'] pulls]; simpl in *. subst pulls reqs.
  destruct (omap id new) as [|item items]; simpl.
  - by destruct (String.eqb _ _).
  - by destruct (apply_strategy _ _ _) as [[out s'] u'].
Qed.

(** C2.  A call of a queue-backed source pulls at most batch_size times
    and an empty report is always its last pull; when the pulls
    obtained items, the call returns strategy.expand of the requests
    built from them if a strategy is configured, and these requests
    themselves if none is; when they obtained none, the call returns the
    empty list under "return_empty" and raises RequestsExhausted
    otherwise.  On a queue holding five items and with batch_size 2,
    four calls in a row return, without a strategy, two, two and one
    request, and with a strategy its expansion of these three batches
    (each call expanding with the strategy object as the call before left
    it), and the fourth call behaves as the policy says. *)
Theorem queue_produce_batch batch_size (build_request : Item → Req)
    (strategy : option S) on_empty self (q : Q) (u : U) :
  make_requests_fn_from_queue batch_size build_request strategy on_empty = inr self →
  let pulls := queue_fn_pulls self q in
  let items := omap id pulls in
  let outcome := (queue_fn self q u).1.1.1 in
  ((length pulls ≤ Z.to_nat batch_size)%nat ∧
   (∀ i, pulls !! i = Some None → length pulls = Datatypes.S i) ∧
   ((length pulls < Z.to_nat batch_size)%nat → last pulls = Some None) ∧
   (∀ s, strategy = Some s → items ≠ [] →
      outcome = ret (expand s u (build_request <$> items)).1.1) ∧
   (strategy = None → items ≠ [] → outcome = ret (build_request <$> items)) ∧
   (items = [] → on_empty = "return_empty" → outcome = ret []) ∧
   (items = [] → on_empty ≠ "return_empty" →
    outcome = raise (RequestsExhausted "Queue is empty; no more requests to generate.")))
  ∧
  (∀ x1 x2 x3 x4 x5 : Item,
     ∃ self2,
       make_requests_fn_from_queue 2 build_request (None : option S) on_empty
         = inr self2 ∧
       queue_calls 4 self2 [x1; x2; x3; x4; x5] u =
         [ ret [build_request x1; build_request x2];
           ret [build_request x3; build_request x4];
           ret [build_request x5];
           if decide (on_empty = "return_empty") then ret []
           else raise (RequestsExhausted
                         "Queue is empty; no more requests to generate.") ])
  ∧
  (∀ (s : S) (x1 x2 x3 x4 x5 : Item),
     let first := expand s u [build_request x1; build_request x2] in
     let second := expand first.1.2 first.2 [build_request x3; build_request x4] in
     let third := expand second.1.2 second.2 [build_request x5] in
     ∃ self2,
       make_requests_fn_from_queue 2 build_request (Some s) on_empty = inr self2 ∧
       queue_calls 4 self2 [x1; x2; x3; x4; x5] u =
         [ ret first.1.1; ret second.1.1; ret third.1.1;
           if decide (on_empty = "return_empty") then ret []
           else raise (RequestsExhausted
                         "Queue is empty; no more requests to generate.") ]).
Proof.
  intros Hmk pulls items outcome.
  apply make_requests_fn_from_queue_ok in Hmk as [Hpos ->].
  split; [|split].
  - subst outcome. rewrite queue_fn_result. fold pulls. fold items. simpl.
    unfold pulls, queue_fn_pulls; simpl.
    destruct (drain_spec build_request (Z.to_nat batch_size) q [] [])
      as (new & Hp & _ & Hlen & Hstop & Hlast).
    simpl in Hp. rewrite Hp.
    split_and!; try done.
    + intros s -> Hne. destruct items; [done|]. simpl.
      by destruct (expand s u _) as [[out s'] u'].
    + intros -> Hne. by destruct items.
    + intros -> ->. done.
    + intros -> Hne. destruct (String.eqb_spec on_empty "return_empty"); done.
  - intros x1 x2 x3 x4 x5.
    exists (mkQueueRequestsFn 2 build_request None on_empty).
    split; [done|]. simpl. unfold queue_fn; simpl.
    destruct (String.eqb_spec on_empty "return_empty"); by case_decide.
  - intros s x1 x2 x3 x4 x5 first second third.
    exists (mkQueueRequestsFn 2 build_request (Some s) on_empty).
    split; [done|]. subst third second first.
    cbn [queue_calls]. unfold queue_fn. simpl.
    destruct (expand s u [build_request x1; build_request x2]) as [[o1 s1] u1]. simpl.
    destruct (expand s1 u1 [build_request x3; build_request x4]) as [[o2 s2] u2]. simpl.
    destruct (expand s2 u2 [build_request x5]) as [[o3 s3] u3]. simpl.
    destruct (String.eqb_spec on_empty "return_empty"); by case_decide.
Qed.

End Queue.

(** ** The sequence-backed source *)

Section Sequence.

Context `{!RandomLaws R}.

Local Abbreviation Source := (@SequenceRequestsFn InferenceSpec R).

Lemma fresh_order_Permutation n do_shuffle (rng : R) :
  (fresh_order n do_shuffle rng).1 ≡ₚ seq 0 n.
Proof.
  unfold fresh_order. destruct do_shuffle; simpl; [|done].
  apply shuffle_Permutation.
Qed.

Lemma valid_source_lookup (self : Source) i idx :
  valid_source self → order self !! i = Some idx →
  (idx < length (samples self))%nat.
Proof.
  intros [_ Hp] Hi. apply list_elem_of_lookup_2 in Hi.
  rewrite Hp in Hi. apply elem_of_seq in Hi. lia.
Qed.

Lemma wrap_valid (self : Source) :
  valid_source self →
  valid_source (wrap self) ∧
  (pos (wrap self) < length (order (wrap self)))%nat ∧
  samples (wrap self) = samples self ∧ args (wrap self) = args self ∧
  do_shuffle (wrap self) = do_shuffle self ∧ strategy (wrap self) = strategy self.
Proof.
  intros Hv. unfold wrap. case_decide as Hpos.
  - pose proof (fresh_order_Permutation (length (samples self)) (do_shuffle self)
                  (rng self)) as Hp.
    destruct (fresh_order _ _ _) as [order' rng']; simpl in *.
    destruct Hv as [Hn _].
    repeat split; simpl; try done.
    rewrite Hp, length_seq. done.
  - repeat split; try done; try apply Hv. lia.
Qed.

(** the loop never raises, serves n indices and keeps the invariant *)
Lemma sequence_loop_spec n (self : Source) reqs seen :
  valid_source self →
  ∃ new newreqs self',
    sequence_loop n self reqs seen = (ret (reqs ++ newreqs), self', seen ++ new) ∧
    valid_source self' ∧ same_setup self self' ∧
    length new = n ∧
    Forall2 (served self) new newreqs.
Proof.
  revert self reqs seen. induction n as [|n IH]; intros self reqs seen Hv; simpl.
  - exists [], [], self. rewrite !app_nil_r. by split_and!.
  - destruct (wrap_valid self Hv) as (Hv' & Hpos & Hs & Ha & Hsh & Hst).
    destruct (order (wrap self) !! pos (wrap self)) as [idx|] eqn:Hidx.
    2:{ apply lookup_ge_None in Hidx. lia. }
    pose proof (valid_source_lookup _ _ _ Hv' Hidx) as Hlt. simpl.
    destruct (samples (wrap self) !! idx) as [sample|] eqn:Hsample.
    2:{ apply lookup_ge_None in Hsample. lia. }
    set (self1 := with_cursor (wrap self) (rng (wrap self)) (order (wrap self))
                    (Datatypes.S (pos (wrap self)))).
    assert (valid_source self1) as Hv1 by (split; apply Hv').
    destruct (IH self1 (reqs ++ [build (args (wrap self)) (Z.of_nat idx) sample])
                (seen ++ [idx]) Hv1)
      as (new & newreqs & self' & Hloop & Hv2 & (Hs2 & Ha2 & Hsh2 & Hst2) & Hlen & Hserved).
    exists (idx :: new), (build (args self) (Z.of_nat idx) sample :: newreqs), self'.
    rewrite Hloop. simpl in *. rewrite <- !app_assoc. simpl.
    rewrite Ha. split_and!; try done; try congruence.
    { unfold same_setup. split_and!; congruence. }
    constructor.
    + exists sample. split; [congruence|done].
    + eapply Forall2_impl; [exact Hserved|].
      intros i r (smp & Hsmp & ->). exists smp. simpl in *. split; congruence.
Qed.

(** wrapping consumes at most one of the epochs still to come *)
Lemma wrap_stream (self : Source) j :
  valid_source self → (1 ≤ j)%nat →
  ∃ d, (d ≤ 1)%nat ∧ stream_from self j = stream_from (wrap self) (j - d).
Proof.
  intros Hv Hj. unfold wrap. case_decide as Hpos.
  - exists 1%nat. split; [done|]. unfold stream_from.
    rewrite drop_ge by done. simpl.
    destruct j as [|j]; [lia|]. simpl. rewrite Nat.sub_0_r.
    by destruct (fresh_order _ _ _) as [order' rng'].
  - exists 0%nat. split; [lia|]. by rewrite Nat.sub_0_r.
Qed.

(** the indices a loop of n steps serves are the next n of the stream,
    and the stream of the state it leaves is the rest *)
Lemma sequence_loop_stream n (self : Source) reqs seen j :
  valid_source self → (n ≤ j)%nat →
  ∃ w, (w ≤ n)%nat ∧
    (sequence_loop n self reqs seen).2 = seen ++ take n (stream_from self j) ∧
    stream_from (sequence_loop n self reqs seen).1.2 (j - w) =
      drop n (stream_from self j).
Proof.
  revert self reqs seen j. induction n as [|n IH]; intros self reqs seen j Hv Hj.
  - exists 0%nat. simpl. by rewrite app_nil_r, Nat.sub_0_r.
  - destruct (wrap_stream self j Hv) as (d & Hd & Hstream); [lia|].
    destruct (wrap_valid self Hv) as (Hv' & Hpos & Hs & Ha & Hsh & Hst).
    simpl.
    destruct (order (wrap self) !! pos (wrap self)) as [idx|] eqn:Hidx.
    2:{ apply lookup_ge_None in Hidx. lia. }
    pose proof (valid_source_lookup _ _ _ Hv' Hidx) as Hlt. simpl.
    destruct (samples (wrap self) !! idx) as [sample|] eqn:Hsample.
    2:{ apply lookup_ge_None in Hsample. lia. }
    set (self1 := with_cursor (wrap self) (rng (wrap self)) (order (wrap self))
                    (Datatypes.S (pos (wrap self)))).
    assert (valid_source self1) as Hv1 by (split; apply Hv').
    assert (stream_from (wrap self) (j - d) = idx :: stream_from self1 (j - d)) as Hcons.
    { unfold stream_from. simpl. by rewrite (drop_S _ _ _ Hidx). }
    destruct (IH self1 (reqs ++ [build (args (wrap self)) (Z.of_nat idx) sample])
                (seen ++ [idx]) (j - d)%nat Hv1) as (w & Hw & Hseen & Hrest); [lia|].
    exists (d + w)%nat. split; [lia|].
    rewrite Hseen, Hstream, Hcons. simpl. rewrite <- app_assoc. simpl.
    split; [done|].
    by replace (j - (d + w))%nat with (j - d - w)%nat by lia.
Qed.

(** one call of the closure, taken apart *)
Lemma sequence_fn_spec (self : Source) (u : U) :
  valid_source self →
  ∃ reqs selfL,
    sequence_loop (Z.to_nat (batch_size (args self))) self [] []
      = (ret reqs, selfL, sequence_fn_seen self) ∧
    valid_source selfL ∧ same_setup self selfL ∧
    length (sequence_fn_seen self) = Z.to_nat (batch_size (args self)) ∧
    Forall2 (served self) (sequence_fn_seen self) reqs ∧
    sequence_fn self u =
      (ret (apply_strategy (strategy self) u reqs).1.1,
       with_strategy selfL (apply_strategy (strategy self) u reqs).1.2,
       (apply_strategy (strategy self) u reqs).2).
Proof.
  intros Hv. unfold sequence_fn, sequence_fn_seen.
  destruct (sequence_loop_spec (Z.to_nat (batch_size (args self))) self [] [] Hv)
    as (new & newreqs & selfL & Hloop & HvL & Hsame & Hlen & Hserved).
  rewrite Hloop. simpl.
  exists newreqs, selfL. split_and!; try done.
  destruct Hsame as (_ & _ & _ & ->).
  by destruct (apply_strategy (strategy self) u newreqs) as [[out st'] u'].
Qed.

Lemma apply_strategy_length (st : option (@GRPORequestStrategy R)) (u : U)
    (reqs : list Req) :
  length (apply_strategy st u reqs).1.1 =
    match st with
    | None => length reqs
    | Some s => (length reqs * Z.to_nat (group_size s))%nat
    end.
Proof.
  destruct st as [s|]; simpl; [|done].
  unfold GRPO_expand.
  pose proof (expand_loop_length (group_size s) reqs (grpo_rng s) u) as Hlen.
  by destruct (expand_loop _ _ _ _ _) as [[out rng'] u'].
Qed.

Lemma apply_strategy_group_size (st : option (@GRPORequestStrategy R)) (u : U)
    (reqs : list Req) :
  group_size <$> (apply_strategy st u reqs).1.2 = group_size <$> st.
Proof.
  destruct st as [s|]; simpl; [|done].
  unfold GRPO_expand.
  by destruct (expand_loop _ _ _ _ _) as [[out rng'] u'].
Qed.

Lemma make_strategy_inv G (entropy : R) st :
  make_strategy G entropy = inr st →
  0 < G ∧
  st = if decide (G ≠ 1) then Some (mkGRPORequestStrategy G entropy) else None.
Proof.
  unfold make_strategy, GRPORequestStrategy_init.
  repeat case_decide; simpl; intros [= <-]; split; done || lia.
Qed.

Lemma make_strategy_pos G (entropy : R) :
  0 < G →
  make_strategy G entropy =
    inr (if decide (G ≠ 1) then Some (mkGRPORequestStrategy G entropy) else None).
Proof.
  intros HG. unfold make_strategy, GRPORequestStrategy_init.
  repeat case_decide; simpl; done || lia.
Qed.

Lemma make_dataset_sequence_requests_fn_inv samples (a : Args) do_shuffle rng_seed
    (entropy : R) (self : Source) :
  make_dataset_sequence_requests_fn samples a do_shuffle rng_seed entropy = inr self →
  samples ≠ [] ∧ 0 < arg_group_size a ∧
  self = initial samples a do_shuffle rng_seed entropy.
Proof.
  unfold make_dataset_sequence_requests_fn, initial.
  destruct samples as [|x xs]; [done|].
  destruct (fresh_order _ _ _) as [order0 rng0]; simpl.
  destruct (make_strategy _ _) as [e|st] eqn:Hst; simpl; [done|].
  apply make_strategy_inv in Hst as [HG ->].
  intros [= <-]. done.
Qed.

Lemma make_dataset_sequence_requests_fn_ok samples (a : Args) do_shuffle rng_seed
    (entropy : R) :
  samples ≠ [] → 0 < arg_group_size a →
  make_dataset_sequence_requests_fn samples a do_shuffle rng_seed entropy
    = inr (initial samples a do_shuffle rng_seed entropy).
Proof.
  intros Hne HG. unfold make_dataset_sequence_requests_fn, initial.
  destruct samples as [|x xs]; [done|].
  destruct (fresh_order _ _ _) as [order0 rng0]; simpl.
  by rewrite make_strategy_pos.
Qed.

Lemma initial_valid samples (a : Args) do_shuffle rng_seed (entropy : R) :
  samples ≠ [] →
  valid_source (initial samples a do_shuffle rng_seed entropy) ∧
  strategy_ok (initial samples a do_shuffle rng_seed entropy).
Proof.
  intros Hne. split.
  - split; simpl.
    + destruct samples; [done|simpl; lia].
    + apply fresh_order_Permutation.
  - unfold strategy_ok. simpl. case_decide; [done|]. lia.
Qed.

Lemma initial_stream samples (a : Args) do_shuffle rng_seed (entropy : R) j :
  stream_from (initial samples a do_shuffle rng_seed entropy) j =
    epochs (Datatypes.S j) (length samples) do_shuffle (Random_seeded rng_seed).
Proof.
  unfold stream_from. simpl.
  by destruct (fresh_order _ _ _) as [order0 rng0].
Qed.

(** k calls in a row: none raises, each returns batch_size requests per
    unit of group size, and together they serve the first k * batch_size
    indices of the stream *)
Lemma sequence_calls_spec k (self : Source) (u : U) j :
  valid_source self → strategy_ok self →
  (k * Z.to_nat (batch_size (args self)) ≤ j)%nat →
  length (sequence_calls k self u).1.1.1 = k ∧
  Forall (λ out, ∃ reqs, out = ret reqs ∧
            length reqs = (Z.to_nat (batch_size (args self))
                           * Z.to_nat (arg_group_size (args self)))%nat)
         (sequence_calls k self u).1.1.1 ∧
  length (sequence_calls k self u).1.1.2 = k ∧
  Forall (λ seen, length seen = Z.to_nat (batch_size (args self)) ∧
                  Forall (λ idx, idx < length (samples self))%nat seen)
         (sequence_calls k self u).1.1.2 ∧
  mjoin (sequence_calls k self u).1.1.2 =
    take (k * Z.to_nat (batch_size (args self))) (stream_from self j) ∧
  Forall2 (λ seen out, ∃ base (st : option (@GRPORequestStrategy R)) (u0 : U),
             Forall2 (served self) seen base ∧
             out = ret (apply_strategy st u0 base).1.1 ∧
             (strategy self = None → st = None))
          (sequence_calls k self u).1.1.2 (sequence_calls k self u).1.1.1.
Proof.
  revert self u j. induction k as [|k IH]; intros self u j Hv Hok Hj.
  - simpl. split_and!; done || constructor.
  - simpl.
    destruct (sequence_fn_spec self u Hv)
      as (reqs & selfL & Hloop & HvL & Hsame & Hlen & Hserved & Hfn).
    destruct (sequence_loop_stream (Z.to_nat (batch_size (args self))) self [] [] j Hv)
      as (w & Hw & Hseen & Hrest); [lia|].
    rewrite Hloop in Hseen, Hrest. simpl in Hseen, Hrest.
    rewrite Hfn.
    set (st' := (apply_strategy (strategy self) u reqs).1.2).
    set (u' := (apply_strategy (strategy self) u reqs).2).
    set (self' := with_strategy selfL st').
    destruct Hsame as (Hs & Ha & Hsh & Hst).
    assert (valid_source self') as Hv' by (split; apply HvL).
    assert (strategy_ok self') as Hok'.
    { unfold strategy_ok in *. simpl. rewrite Ha.
      pose proof (apply_strategy_group_size (strategy self) u reqs) as Hg.
      fold st' in Hg. destruct (strategy self) as [s|], st' as [s'|]; simpl in *;
        congruence. }
    assert (args self' = args self) as Ha' by done.
    assert (samples self' = samples self) as Hs' by done.
    assert (strategy self = None → strategy self' = None) as Hnone.
    { intros HN. simpl. unfold st'. by rewrite HN. }
    destruct (IH self' u' (j - w)%nat Hv' Hok')
      as (Hl1 & Houts & Hl2 & Hseens & Hjoin & Hrel).
    { rewrite Ha'. lia. }
    destruct (sequence_calls k self' u') as [[[outs seens] self''] u'']. simpl in *.
    rewrite Ha', ?Hs' in *.
    split_and!; try (f_equal; done).
    + constructor; [|done]. eexists. split; [done|].
      rewrite apply_strategy_length. unfold strategy_ok in Hok.
      apply Forall2_length in Hserved. rewrite Hlen in Hserved.
      destruct (strategy self) as [s|]; rewrite Hok; lia.
    + constructor; [|done]. split; [done|].
      apply Forall_forall. intros idx Hin.
      apply list_elem_of_lookup in Hin as [i Hi].
      destruct (Forall2_lookup_l _ _ _ _ _ Hserved Hi) as (r & _ & smp & Hsmp & _).
      by apply lookup_lt_Some in Hsmp.
    + rewrite Hjoin. change (stream_from self' (j - w)) with (stream_from selfL (j - w)).
      rewrite Hrest, Hseen. rewrite take_take_drop. f_equal.
    + constructor.
      * exists reqs, (strategy self), u. by split_and!.
      * eapply Forall2_impl; [exact Hrel|].
        intros seen out (base & st & u0 & Hb & Hout & Hst0).
        exists base, st, u0. split_and!; [|done|by auto].
        eapply Forall2_impl; [exact Hb|].
        intros idx r (smp & Hsmp & ->). exists smp. simpl in *. split; congruence.
Qed.

Lemma apply_strategy_rng (st : option (@GRPORequestStrategy R)) (u : U)
    (reqs : list Req) :
  Forall explicit_seeds reqs →
  grpo_rng <$> (apply_strategy st u reqs).1.2 = grpo_rng <$> st.
Proof.
  intros Hall. destruct st as [s|]; simpl; [|done].
  unfold GRPO_expand.
  pose proof (expand_loop_choices (group_size s) reqs (grpo_rng s) u []) as Heq.
  destruct (expand_loop _ _ _ _ _) as [[out rng'] u']. simpl.
  injection Heq as _ -> _. by rewrite group_choices_explicit_rng.
Qed.

Lemma served_explicit (self : Source) seen reqs :
  Forall2 (served self) seen reqs → Forall explicit_seeds reqs.
Proof.
  intros Hs. apply Forall_forall. intros r Hr.
  apply list_elem_of_lookup in Hr as [i Hi].
  destruct (Forall2_lookup_r _ _ _ _ _ Hs Hi) as (idx & _ & smp & _ & ->).
  apply build_explicit.
Qed.

(** the closure after k calls: still within the invariant, and its
    strategy has not drawn from its generator *)
Lemma sequence_calls_final k (self : Source) (u : U) :
  valid_source self → strategy_ok self →
  valid_source (sequence_calls k self u).1.2 ∧
  strategy_ok (sequence_calls k self u).1.2 ∧
  samples (sequence_calls k self u).1.2 = samples self ∧
  args (sequence_calls k self u).1.2 = args self ∧
  do_shuffle (sequence_calls k self u).1.2 = do_shuffle self ∧
  grpo_rng <$> strategy (sequence_calls k self u).1.2 = grpo_rng <$> strategy self ∧
  group_size <$> strategy (sequence_calls k self u).1.2 = group_size <$> strategy self.
Proof.
  revert self u. induction k as [|k IH]; intros self u Hv Hok; [done|].
  simpl.
  destruct (sequence_fn_spec self u Hv)
    as (reqs & selfL & Hloop & HvL & Hsame & Hlen & Hserved & Hfn).
  rewrite Hfn.
  set (st' := (apply_strategy (strategy self) u reqs).1.2).
  set (u' := (apply_strategy (strategy self) u reqs).2).
  set (self' := with_strategy selfL st').
  destruct Hsame as (Hs & Ha & Hsh & Hst).
  pose proof (apply_strategy_group_size (strategy self) u reqs) as Hg.
  pose proof (apply_strategy_rng (strategy self) u reqs
                (served_explicit _ _ _ Hserved)) as Hr.
  fold st' in Hg, Hr.
  assert (valid_source self') as Hv' by (split; apply HvL).
  assert (strategy_ok self') as Hok'.
  { unfold strategy_ok in *. simpl. rewrite Ha.
    destruct (strategy self) as [s|], st' as [s'|]; simpl in *; congruence. }
  destruct (IH self' u' Hv' Hok') as (Hv2 & Hok2 & Hs2 & Ha2 & Hsh2 & Hr2 & Hg2).
  destruct (sequence_calls k self' u') as [[[outs seens] self''] u'']. simpl in *.
  split_and!; try done; congruence.
Qed.

Lemma served_functional (self : Source) seen base1 base2 :
  Forall2 (served self) seen base1 → Forall2 (served self) seen base2 →
  base1 = base2.
Proof.
  intros H1. revert base2. induction H1 as [|idx r1 seen base1 Hr1 _ IH];
    intros base2 H2; inversion H2 as [|? r2 ? base2' Hr2 H2']; subst; [done|].
  destruct Hr1 as (s1 & Hs1 & ->), Hr2 as (s2 & Hs2 & ->).
  f_equal; [congruence|]. by apply IH.
Qed.

Lemma join_chunks_inj (n : nat) (ls1 ls2 : list (list nat)) :
  Forall (λ l, length l = n) ls1 → Forall (λ l, length l = n) ls2 →
  length ls1 = length ls2 → mjoin ls1 = mjoin ls2 → ls1 = ls2.
Proof.
  intros H1. revert ls2. induction H1 as [|l1 ls1 Hl1 _ IH];
    intros [|l2 ls2] H2 Hlen Hjoin; simpl in *; try done.
  inversion H2 as [|? ? Hl2 H2']; subst.
  apply app_inj_1 in Hjoin as [-> Hjoin]; [|congruence].
  f_equal. apply IH; [done|lia|done].
Qed.


(** C7.  Two sources built with the same shuffle flag and rng_seed and
    the same batch_size over datasets of the same length serve the same
    indices call after call, for any number of calls, whatever else
    differs between them (the strategies' generators, the process
    entropy group ids are drawn from, the other arguments); when built
    from the same samples and arguments and without grouping they
    return the same requests. *)
Theorem sequence_visitation_deterministic samples1 samples2 (a1 a2 : Args)
    do_shuffle rng_seed (entropy1 entropy2 : R) (u1 u2 : U)
    (self1 self2 : Source) (k : nat) :
  length samples1 = length samples2 →
  batch_size a1 = batch_size a2 →
  make_dataset_sequence_requests_fn samples1 a1 do_shuffle rng_seed entropy1
    = inr self1 →
  make_dataset_sequence_requests_fn samples2 a2 do_shuffle rng_seed entropy2
    = inr self2 →
  (sequence_calls k self1 u1).1.1.2 = (sequence_calls k self2 u2).1.1.2 ∧
  (samples1 = samples2 → a1 = a2 → arg_group_size a1 = 1 →
   (sequence_calls k self1 u1).1.1.1 = (sequence_calls k self2 u2).1.1.1).
Proof.
  intros Hlen HB H1 H2.
  apply make_dataset_sequence_requests_fn_inv in H1 as (Hne1 & HG1 & ->).
  apply make_dataset_sequence_requests_fn_inv in H2 as (Hne2 & HG2 & ->).
  destruct (initial_valid samples1 a1 do_shuffle rng_seed entropy1 Hne1) as [Hv1 Hok1].
  destruct (initial_valid samples2 a2 do_shuffle rng_seed entropy2 Hne2) as [Hv2 Hok2].
  destruct (sequence_calls_spec k _ u1 (k * Z.to_nat (batch_size a1)) Hv1 Hok1)
    as (Hl1 & _ & Hk1 & Hseens1 & Hjoin1 & Hrel1); [done|].
  destruct (sequence_calls_spec k _ u2 (k * Z.to_nat (batch_size a2)) Hv2 Hok2)
    as (Hl2 & _ & Hk2 & Hseens2 & Hjoin2 & Hrel2); [done|].
  rewrite initial_stream in Hjoin1, Hjoin2.
  change (args (initial samples1 a1 do_shuffle rng_seed entropy1)) with a1 in *.
  change (args (initial samples2 a2 do_shuffle rng_seed entropy2)) with a2 in *.
  assert ((sequence_calls k (initial samples1 a1 do_shuffle rng_seed entropy1) u1).1.1.2
          = (sequence_calls k (initial samples2 a2 do_shuffle rng_seed entropy2) u2).1.1.2)
    as Heq.
  { apply (join_chunks_inj (Z.to_nat (batch_size a1))).
    - eapply Forall_impl; [exact Hseens1|]. by intros l [? _].
    - eapply Forall_impl; [exact Hseens2|]. intros l [? _]. congruence.
    - congruence.
    - rewrite Hjoin1, Hjoin2, Hlen, HB. done. }
  split; [done|].
  intros <- <- HG. rewrite <- Heq in Hrel2.
  assert (strategy (initial samples1 a1 do_shuffle rng_seed entropy1) = None) as HN1.
  { simpl. case_decide; [done|done]. }
  assert (strategy (initial samples1 a1 do_shuffle rng_seed entropy2) = None) as HN2.
  { simpl. case_decide; [done|done]. }
  apply list_eq_same_length with k; [done..|].
  intros i out1 out2 Hi Ho1 Ho2.
  destruct (Forall2_lookup_r _ _ _ _ _ Hrel1 Ho1)
    as (seen & Hseen & base1 & st1 & w1 & Hb1 & -> & Hst1).
  destruct (Forall2_lookup_r _ _ _ _ _ Hrel2 Ho2)
    as (seen' & Hseen' & base2 & st2 & w2 & Hb2 & -> & Hst2).
  rewrite Hseen in Hseen'. injection Hseen' as <-.
  rewrite (Hst1 HN1), (Hst2 HN2). simpl.
  f_equal. eapply served_functional; [exact Hb1|].
  eapply Forall2_impl; [exact Hb2|]. by intros idx r (smp & Hsmp & ->); exists smp.
Qed.


End Sequence.

(** ** The two dataset factories together *)

Section Factories.

Context `{!RandomLaws R}.
Context {Q : Type} `{!NonBlockingQueue Q (Z * JSON)}.

Local Abbreviation Source := (@SequenceRequestsFn InferenceSpec R).
Local Abbreviation QueueSource :=
  (@QueueRequestsFn InferenceSpec (Z * JSON) (@GRPORequestStrategy R)).

Lemma make_dataset_queue_requests_fn_inv (a : Args) on_empty (entropy : R)
    (selfq : QueueSource) :
  make_dataset_queue_requests_fn a on_empty entropy = inr selfq →
  0 < batch_size a ∧ 0 < arg_group_size a ∧
  selfq = mkQueueRequestsFn (batch_size a) (_build a)
            (if decide (arg_group_size a ≠ 1)
             then Some (mkGRPORequestStrategy (arg_group_size a) entropy) else None)
            on_empty.
Proof.
  unfold make_dataset_queue_requests_fn.
  destruct (make_strategy _ _) as [e|st] eqn:Hst; simpl; [done|].
  apply make_strategy_inv in Hst as [HG ->].
  intros [HB ->]%make_requests_fn_from_queue_ok. done.
Qed.



(** what the constructors do reject: a group size or, for the queue
    sources, a batch size that is not positive, and an empty dataset *)
Lemma construction_errors (a : Args) samples do_shuffle rng_seed on_empty (entropy : R) :
  (∀ G, G ≤ 0 → ∃ msg, GRPORequestStrategy_init G entropy = inl (ValueError msg)) ∧
  (batch_size a ≤ 0 ∨ arg_group_size a ≤ 0 →
   ∃ msg, make_dataset_queue_requests_fn a on_empty entropy = inl (ValueError msg)) ∧
  (samples = [] ∨ arg_group_size a ≤ 0 →
   ∃ msg, make_dataset_sequence_requests_fn samples a do_shuffle rng_seed entropy
            = inl (ValueError msg)).
Proof.
  assert (∀ G, G ≤ 0 →
            make_strategy G entropy =
              inl (ValueError ("group_size must be positive, got " +:+ pretty G)))
    as Hstrategy.
  { intros G HG. unfold make_strategy. rewrite decide_True by lia.
    by rewrite GRPORequestStrategy_init_nonpos. }
  split_and!.
  - intros G HG. eexists. by apply GRPORequestStrategy_init_nonpos.
  - intros Hbad. unfold make_dataset_queue_requests_fn.
    destruct (decide (arg_group_size a ≤ 0)) as [HG|HG].
    + rewrite Hstrategy by done. by eexists.
    + rewrite make_strategy_pos by lia. simpl.
      rewrite make_requests_fn_from_queue_nonpos by lia. by eexists.
  - intros Hbad. unfold make_dataset_sequence_requests_fn.
    destruct samples as [|x xs]; [by eexists|].
    destruct Hbad as [?|HG]; [done|].
    destruct (fresh_order _ _ _) as [order0 rng0].
    rewrite Hstrategy by done. by eexists.
Qed.

(** a batch size that is not positive is accepted by the sequence factory;
    the closure then returns the empty list *)
Lemma sequence_nonpositive_batch_size (a : Args) samples do_shuffle rng_seed
    (entropy : R) (u : U) :
  samples ≠ [] → 0 < arg_group_size a → batch_size a ≤ 0 →
  ∃ self,
    make_dataset_sequence_requests_fn samples a do_shuffle rng_seed entropy = inr self ∧
    (sequence_fn self u).1.1 = ret [].
Proof.
  intros Hne HG HB. exists (initial samples a do_shuffle rng_seed entropy).
  split; [by apply make_dataset_sequence_requests_fn_ok|].
  unfold sequence_fn. simpl.
  replace (Z.to_nat (batch_size a)) with 0%nat by lia. simpl.
  by case_decide.
Qed.

End Factories.

End Properties.

(** ** Instances of the theorems on concrete inputs *)

Module Witnesses.

Import Counter Examples.

(** the counter generator's shuffle is a rotation, hence a permutation *)
#[export] Instance Counter_laws : RandomLaws nat.
Proof.
  split. intros l r. simpl. unfold rng_shuffle, rotate. simpl.
  rewrite Permutation_app_comm. by rewrite take_drop.
Qed.

Lemma grpo_expand_groups_witness :
  0 < 2 ∧ NoDup (uuid_draws (length two_requests) 0%nat) ∧
  ∃ out, (expand (mkGRPORequestStrategy 2 0%nat) 0%nat two_requests).1.1 = out ∧
         length out = 4%nat.
Proof.
  assert (NoDup (uuid_draws (length two_requests) 0%nat)) as Hfresh.
  { vm_compute. apply NoDup_cons. split; [|apply NoDup_singleton].
    intros Hin. apply list_elem_of_singleton in Hin. discriminate Hin. }
  split; [lia|]. split; [exact Hfresh|].
  destruct (grpo_expand_groups 2 two_requests 0%nat 0%nat) as
    (self & out & self' & u' & gids & Hinit & Hexp & Hlen & _); [lia|exact Hfresh|].
  rewrite GRPORequestStrategy_init_pos in Hinit by lia. injection Hinit as <-.
  exists out. rewrite Hexp. split; [done|]. exact Hlen.
Defined.

Lemma expand_empty_witness :
  0 < 4 ∧
  expand mkIdentityStrategy 0%nat ([] : list (@RolloutRequest unit))
    = ([], mkIdentityStrategy, 0%nat) ∧
  ∃ self,
    GRPORequestStrategy_init 4 5%nat = inr self ∧
    grpo_rng self = 5%nat ∧
    expand self 0%nat ([] : list (@RolloutRequest unit)) = ([], self, 0%nat).
Proof.
  split; [lia|]. apply (expand_empty (InferenceSpec:=unit) 4 5%nat 0%nat). lia.
Defined.

Lemma queue_produce_batch_witness :
  make_requests_fn_from_queue 2 (_build (plain_args 2 1)) None "raise" = inr queue_of_two ∧
  (length (queue_fn_pulls queue_of_two five_items) ≤ Z.to_nat 2)%nat.
Proof.
  split; [reflexivity|].
  destruct (queue_produce_batch (Q:=list (Z * JSON)) 2 (_build (plain_args 2 1)) None
              "raise" queue_of_two five_items 0%nat) as [(Hlen & _) _];
    [reflexivity|exact Hlen].
Defined.


Lemma grpo_expand_preserves_witness :
  Forall2 (λ l r, request_at one_request_store l = Some r) [2%positive]
    [request (Some 7) None {["sample_index" := JInt 7]}] ∧
  ∃ out rng' u' h',
    store_expand_loop 2 [2%positive] 0%nat 0%nat one_request_store []
      = Some (out, rng', u', h') ∧
    ∀ l o, one_request_store !! l = Some o → h' !! l = Some o.
Proof.
  assert (Forall2 (λ l r, request_at one_request_store l = Some r) [2%positive]
            [request (Some 7) None {["sample_index" := JInt 7]}]) as Hall.
  { constructor; [reflexivity|constructor]. }
  split; [exact Hall|].
  destruct (grpo_expand_preserves 2 [2%positive] _ 0%nat 0%nat one_request_store Hall)
    as (out & rng' & u' & h' & Hrun & Hframe & _).
  exists out, rng', u', h'. split; [exact Hrun|exact Hframe].
Defined.

Lemma sequence_visitation_deterministic_witness :
  length [A; B; C] = length [C; C; A] ∧
  batch_size (plain_args 2 1) = batch_size (plain_args 2 3) ∧
  make_dataset_sequence_requests_fn [A; B; C] (plain_args 2 1) true 11 0%nat
    = inr (initial [A; B; C] (plain_args 2 1) true 11 0%nat) ∧
  make_dataset_sequence_requests_fn [C; C; A] (plain_args 2 3) true 11 8%nat
    = inr (initial [C; C; A] (plain_args 2 3) true 11 8%nat) ∧
  (sequence_calls 4 (initial [A; B; C] (plain_args 2 1) true 11 0%nat) 0%nat).1.1.2
    = (sequence_calls 4 (initial [C; C; A] (plain_args 2 3) true 11 8%nat) 5%nat).1.1.2.
Proof.
  split; [reflexivity|]. split; [reflexivity|]. split; [reflexivity|].
  split; [reflexivity|].
  apply (sequence_visitation_deterministic [A; B; C] [C; C; A] (plain_args 2 1)
           (plain_args 2 3) true 11 0%nat 8%nat 0%nat 5%nat _ _ 4);
    reflexivity.
Defined.


End Witnesses.

(** ** Where the code and the description part ways *)

Module Findings.

Import Counter Examples.


(** C5 as stated fails: with group_size 2 and no override functions the
    second request returned for the sample at index 0 has sampling_seed 1,
    in the sequence source and, for an item with index 5, sampling_seed 6
    in the queue source. *)
Lemma default_sampling_seed_counterexample :
  (∃ self out r,
     make_dataset_sequence_requests_fn [A; B] (plain_args 2 2) false 0 0%nat = inr self ∧
     sequence_fn_seen self = [0; 1]%nat ∧
     (sequence_fn self 0%nat).1.1 = ret out ∧
     seeds <$> out = [(Some 0, Some 0); (Some 0, Some 1); (Some 1, Some 1); (Some 1, Some 2)] ∧
     out !! 1%nat = Some r ∧
     env r = mkEnvSpec "gsm8k" {["sample" := A]} ∧
     sampling_seed r ≠ Some 0) ∧
  (∃ selfq out r,
     make_dataset_queue_requests_fn (R:=nat) (plain_args 2 2) "raise" 0%nat = inr selfq ∧
     (queue_fn selfq [(5, A)] 0%nat).1.1.1 = ret out ∧
     seeds <$> out = [(Some 5, Some 5); (Some 5, Some 6)] ∧
     out !! 1%nat = Some r ∧
     env r = mkEnvSpec "gsm8k" {["sample" := A]} ∧
     sampling_seed r ≠ Some 5).
Proof.
  split.
  - eexists _, _, _. split; [reflexivity|]. split; [reflexivity|].
    split; [reflexivity|]. split; [reflexivity|]. split; [reflexivity|].
    split; [reflexivity|]. simpl. discriminate.
  - eexists _, _, _. split; [reflexivity|]. split; [reflexivity|].
    split; [reflexivity|]. split; [reflexivity|]. split; [reflexivity|].
    simpl. discriminate.
Qed.

(** C8.  make_dataset_sequence_requests_fn does not reject a batch size
    that is not positive: built with batch_size 0 (or -3) it returns a
    closure whose calls return the empty list, where the queue factory
    raises ValueError for the same arguments. *)
Theorem sequence_source_accepts_batch_size_zero :
  (∃ self,
     make_dataset_sequence_requests_fn [A] (plain_args 0 1) false 0 0%nat = inr self ∧
     (sequence_calls 2 self 0%nat).1.1.1 = [ret []; ret []]) ∧
  (∃ self,
     make_dataset_sequence_requests_fn [A] (plain_args (-3) 1) false 0 0%nat = inr self ∧
     (sequence_calls 2 self 0%nat).1.1.1 = [ret []; ret []]) ∧
  make_dataset_queue_requests_fn (R:=nat) (plain_args 0 1) "raise" 0%nat
    = inl (ValueError "batch_size must be positive, got 0") ∧
  make_dataset_queue_requests_fn (R:=nat) (plain_args (-3) 1) "raise" 0%nat
    = inl (ValueError "batch_size must be positive, got -3").
Proof.
  split_and!; try reflexivity; eexists; split; reflexivity.
Qed.

End Findings.

(** * Further properties of the two modules *)

Section Expansion.

Context {InferenceSpec : Type}.
Context {R : Type} `{!Random R}.
Context {U : Type} `{!UUIDSource U}.

Local Abbreviation Req := (@RolloutRequest InferenceSpec).
Local Abbreviation Strategy := (@GRPORequestStrategy R).

Lemma expand_loop_app G (xs ys : list Req) (rng : R) (u : U) acc :
  expand_loop G (xs ++ ys) rng u acc =
    expand_loop G ys (expand_loop G xs rng u acc).1.2 (expand_loop G xs rng u acc).2
      (expand_loop G xs rng u acc).1.1.
Proof.
  revert rng u acc. induction xs as [|x xs IH]; intros rng u acc; simpl; [done|].
  destruct (pick_seed (env_seed x) rng) as [e rng1].
  destruct (pick_seed (sampling_seed x) rng1) as [b rng2].
  destruct (uuid4 u) as [gid u1]. apply IH.
Qed.

Lemma GRPO_expand_unfold (self : Strategy) (u : U) (requests : list Req) :
  expand self u requests =
    ((expand_loop (group_size self) requests (grpo_rng self) u []).1.1,
     mkGRPORequestStrategy (group_size self)
       (expand_loop (group_size self) requests (grpo_rng self) u []).1.2,
     (expand_loop (group_size self) requests (grpo_rng self) u []).2).
Proof.
  simpl. unfold GRPO_expand.
  by destruct (expand_loop (group_size self) requests (grpo_rng self) u [])
    as [[out rng'] u'].
Qed.

Lemma expand_loop_app_out G (xs ys : list Req) (rng : R) (u : U) :
  (expand_loop G (xs ++ ys) rng u []).1.1 =
    (expand_loop G xs rng u []).1.1
      ++ (expand_loop G ys (expand_loop G xs rng u []).1.2
            (expand_loop G xs rng u []).2 []).1.1.
Proof. rewrite expand_loop_app. by rewrite expand_loop_acc. Qed.

(** X1.  Expanding a batch is expanding its parts one after the other with
    the same strategy object: the outputs are concatenated and the second
    part sees the generator and the entropy as the first part left them. *)
Theorem GRPO_expand_app (self : Strategy) (u : U) (xs ys : list Req) :
  GRPO_expand self u (xs ++ ys) =
    ((GRPO_expand self u xs).1.1
       ++ (GRPO_expand (GRPO_expand self u xs).1.2 (GRPO_expand self u xs).2 ys).1.1,
     (GRPO_expand (GRPO_expand self u xs).1.2 (GRPO_expand self u xs).2 ys).1.2,
     (GRPO_expand (GRPO_expand self u xs).1.2 (GRPO_expand self u xs).2 ys).2).
Proof.
  unfold GRPO_expand. rewrite expand_loop_app.
  destruct (expand_loop (group_size self) xs (grpo_rng self) u []) as [[o1 r1] u1].
  simpl. rewrite (expand_loop_acc _ ys r1 u1 o1).
  by destruct (expand_loop (group_size self) ys r1 u1 []) as [[o2 r2] u2].
Qed.

Lemma rng_after_add n m (rng : R) :
  rng_after (n + m) rng = rng_after m (rng_after n rng).
Proof. unfold rng_after. by rewrite Nat.add_comm, Nat.iter_add. Qed.

Lemma pick_seed_rng (explicit : option Z) (rng : R) :
  (pick_seed explicit rng).2 =
    rng_after (match explicit with Some _ => 0 | None => 1 end) rng.
Proof. by destruct explicit. Qed.

Lemma uuid_after_S n (u : U) : uuid_after (S n) u = uuid_after n (uuid4 u).2.
Proof. unfold uuid_after. by rewrite Nat.iter_succ_r. Qed.

Lemma missing_seeds_cons (r : Req) rest :
  missing_seeds (r :: rest) = (missing_of r + missing_seeds rest)%nat.
Proof. done. Qed.

Lemma group_choices_draws (requests : list Req) (rng : R) (u : U) :
  (group_choices requests rng u).1.2 = rng_after (missing_seeds requests) rng ∧
  (group_choices requests rng u).2 = uuid_after (length requests) u.
Proof.
  revert rng u. induction requests as [|r rest IH]; intros rng u; [done|].
  rewrite missing_seeds_cons. cbn [group_choices length]. rewrite uuid_after_S.
  unfold missing_of. rewrite !rng_after_add.
  rewrite <- (pick_seed_rng (env_seed r) rng).
  destruct (pick_seed (env_seed r) rng) as [e rng1]. cbn [snd].
  rewrite <- (pick_seed_rng (sampling_seed r) rng1).
  destruct (pick_seed (sampling_seed r) rng1) as [b rng2]. cbn [snd].
  destruct (uuid4 u) as [gid u1]. cbn [snd].
  destruct (IH rng2 u1) as [IHr IHu].
  by destruct (group_choices rest rng2 u1) as [[cs rng'] u'].
Qed.

Lemma GRPO_expand_out_of (self : Strategy) (u : U) (requests : list Req) :
  (expand self u requests).1.1
    = (expand_loop (group_size self) requests (grpo_rng self) u []).1.1.
Proof. destruct self as [G rng]. apply GRPO_expand_out. Qed.

(** X2.  A call of expand draws from the strategy's generator exactly once
    for every seed a base request leaves unset, and takes exactly one
    token from the process entropy per base request; the group size of
    the strategy is unchanged. *)
Theorem GRPO_expand_draws (self : Strategy) (u : U) (requests : list Req) :
  grpo_rng (expand self u requests).1.2
    = rng_after (missing_seeds requests) (grpo_rng self) ∧
  (expand self u requests).2 = uuid_after (length requests) u ∧
  group_size (expand self u requests).1.2 = group_size self.
Proof.
  simpl. unfold GRPO_expand.
  pose proof (expand_loop_choices (group_size self) requests (grpo_rng self) u []) as Heq.
  destruct (group_choices_draws requests (grpo_rng self) u) as [Hr Hu].
  destruct (expand_loop _ _ _ _ _) as [[out rng'] u']. simpl.
  injection Heq as _ -> ->. done.
Qed.

Lemma variant_explicit (base : Req) e b gid i : explicit_seeds (variant base e b gid i).
Proof. split; simpl; eauto. Qed.

Lemma expand_loop_explicit G (requests : list Req) (rng : R) (u : U) :
  Forall explicit_seeds (expand_loop G requests rng u []).1.1.
Proof.
  rewrite expand_loop_choices. simpl.
  apply Forall_forall. intros r Hr.
  apply list_elem_of_join in Hr as (l & Hr & Hl).
  apply elem_of_lookup_zip_with in Hl as (k & base & c & -> & _ & _).
  unfold group_for, group_of in Hr.
  apply list_elem_of_fmap in Hr as (i & -> & _). apply variant_explicit.
Qed.

(** X3.  Every request expand returns has both seeds set, whatever the
    base requests had; so expanding the output once more, with any
    strategy object, draws nothing from that object's generator. *)
Theorem GRPO_expand_twice (self again : Strategy) (u u2 : U) (requests : list Req) :
  Forall explicit_seeds (expand self u requests).1.1 ∧
  grpo_rng (expand again u2 (expand self u requests).1.1).1.2 = grpo_rng again ∧
  length (expand again u2 (expand self u requests).1.1).1.1
    = (length requests * Z.to_nat (group_size self) * Z.to_nat (group_size again))%nat.
Proof.
  assert (Forall explicit_seeds (expand self u requests).1.1) as Hall.
  { rewrite GRPO_expand_out_of. apply expand_loop_explicit. }
  split; [done|]. split.
  - rewrite GRPO_expand_unfold. cbn [fst snd grpo_rng].
    rewrite expand_loop_choices. cbn [fst snd].
    by apply group_choices_explicit_rng.
  - rewrite !GRPO_expand_out_of, !expand_loop_length. done.
Qed.

Lemma pick_seed_range `{!RandomRange R} (rng : R) :
  0 ≤ (pick_seed None rng).1 ≤ 2 ^ 32 - 1.
Proof. simpl. apply randint_range. lia. Qed.

Lemma group_choices_range `{!RandomRange R} (requests : list Req) (rng : R) (u : U)
    k base c :
  requests !! k = Some base →
  (group_choices requests rng u).1.1 !! k = Some c →
  (env_seed base = None → 0 ≤ c.1.1 ≤ 2 ^ 32 - 1) ∧
  (sampling_seed base = None → 0 ≤ c.1.2 ≤ 2 ^ 32 - 1).
Proof.
  revert rng u k. induction requests as [|r rest IH]; intros rng u k; [done|].
  cbn [group_choices].
  pose proof (pick_seed_range rng) as He.
  destruct (pick_seed (env_seed r) rng) as [e rng1] eqn:Hpe.
  pose proof (pick_seed_range rng1) as Hb.
  destruct (pick_seed (sampling_seed r) rng1) as [b rng2] eqn:Hpb.
  destruct (uuid4 u) as [gid u1].
  specialize (IH rng2 u1).
  destruct (group_choices rest rng2 u1) as [[cs rng'] u'].
  destruct k as [|k]; cbn.
  - intros [= ->] [= <-]. cbn. split; intros Hnone; rewrite Hnone in *.
    + by rewrite Hpe in He.
    + by rewrite Hpb in Hb.
  - apply IH.
Qed.

(** X4.  A seed expand has to make up lies in [0, 2**32 - 1]: the env seed
    of a group whose base request has none, and the base sampling seed,
    so that the i-th variant's sampling seed lies in
    [i, 2**32 - 1 + i] and can exceed 32 bits. *)
Theorem GRPO_fallback_seed_range `{!RandomRange R} (self : Strategy) (u : U)
    (requests : list Req) (k i : nat) (base : Req) :
  requests !! k = Some base →
  (i < Z.to_nat (group_size self))%nat →
  ∃ r e s,
    (expand self u requests).1.1 !! (k * Z.to_nat (group_size self) + i)%nat = Some r ∧
    env_seed r = Some e ∧ sampling_seed r = Some s ∧
    (env_seed base = None → 0 ≤ e ≤ 2 ^ 32 - 1) ∧
    (sampling_seed base = None → Z.of_nat i ≤ s ≤ 2 ^ 32 - 1 + Z.of_nat i).
Proof.
  intros Hbase Hi. rewrite GRPO_expand_out_of.
  destruct ((group_choices requests (grpo_rng self) u).1.1 !! k) as [c|] eqn:Hc.
  2:{ apply lookup_ge_None in Hc. rewrite group_choices_length in Hc.
      apply lookup_lt_Some in Hbase. lia. }
  destruct (group_choices_range requests (grpo_rng self) u k base c Hbase Hc)
    as [He Hs].
  exists (variant base c.1.1 c.1.2 c.2 (Z.of_nat i)), c.1.1, (c.1.2 + Z.of_nat i).
  split; [by apply expand_loop_lookup|]. simpl.
  split; [done|]. split; [done|]. split; [done|].
  intros Hnone. specialize (Hs Hnone). lia.
Qed.

End Expansion.

Section QueueCalls.

Context {InferenceSpec : Type}.
Context {R : Type} `{!Random R}.
Context {U : Type} `{!UUIDSource U}.
Context {Item S : Type} `{!@RequestStrategy InferenceSpec U S}.

Local Abbreviation Req := (@RolloutRequest InferenceSpec).

(** on a queue nobody else touches the loop takes the first n items *)
Lemma drain_fifo (build_request : Item → Req) n (q : list Item) reqs pulls :
  drain build_request n q reqs pulls =
    (reqs ++ (build_request <$> take n q), drop n q,
     pulls ++ (Some <$> take n q) ++ (if decide (length q < n)%nat then [None] else [])).
Proof.
  revert q reqs pulls. induction n as [|n IH]; intros q reqs pulls.
  - simpl. by rewrite !app_nil_r, drop_0.
  - destruct q as [|x q]; simpl.
    + by rewrite app_nil_r.
    + rewrite IH. rewrite <- !app_assoc. simpl. repeat f_equal.
      repeat case_decide; done || lia.
Qed.

Lemma queue_fn_fifo (self : QueueRequestsFn Item S) (q : list Item) (u : U) :
  q_strategy self = None → 0 < q_batch_size self →
  queue_fn self q u =
    (if decide (0 < length q)%nat
     then ret (q_build_request self <$> take (Z.to_nat (q_batch_size self)) q)
     else on_exhausted (q_on_empty self),
     self, drop (Z.to_nat (q_batch_size self)) q, u).
Proof.
  intros Hst HB. unfold queue_fn. rewrite drain_fifo. simpl.
  destruct q as [|x q]; simpl.
  - rewrite drop_nil, take_nil. simpl. unfold on_exhausted.
    by destruct (String.eqb _ _).
  - destruct (Z.to_nat (q_batch_size self)) as [|n] eqn:Hn; [lia|]. simpl.
    rewrite Hst. simpl. destruct self; simpl in *. by subst.
Qed.

(** X5.  On a queue nobody else touches and without a strategy, the c-th
    call (from 0) returns the requests built from items c*batch_size up
    to (c+1)*batch_size - 1 of the queue, in queue order, fewer if the
    queue ends there; every call after the queue has run out answers
    as the policy says.  No item is skipped, repeated or reordered. *)
Theorem queue_calls_fifo batch_size (build_request : Item → Req) on_empty
    (self : QueueRequestsFn Item S) (q : list Item) (u : U) (k : nat) :
  make_requests_fn_from_queue batch_size build_request None on_empty = inr self →
  queue_calls k self q u =
    (λ c : nat,
       if decide (c * Z.to_nat batch_size < length q)%nat
       then ret (build_request <$>
                   take (Z.to_nat batch_size) (drop (c * Z.to_nat batch_size) q))
       else on_exhausted on_empty) <$> seq 0 k.
Proof.
  intros [HB ->]%make_requests_fn_from_queue_ok.
  revert q. induction k as [|k IH]; intros q; [done|].
  cbn [queue_calls]. rewrite queue_fn_fifo by done. cbn [seq fmap list_fmap].
  rewrite IH. simpl. f_equal.
  rewrite <- fmap_S_seq, <- list_fmap_compose. apply list_fmap_ext.
  intros _ c _. simpl. rewrite length_drop, drop_drop.
  repeat case_decide; done || lia.
Qed.

End QueueCalls.

Section EndToEnd.

Context {InferenceSpec : Type}.
Context {R : Type} `{!Random R} `{!RandomLaws R}.
Context {U : Type} `{!UUIDSource U}.

Local Abbreviation Req := (@RolloutRequest InferenceSpec).
Local Abbreviation Args := (@DatasetArgs InferenceSpec).
Local Abbreviation Strategy := (@GRPORequestStrategy R).
Local Abbreviation Source := (@SequenceRequestsFn InferenceSpec R).
Local Abbreviation QueueSource :=
  (@QueueRequestsFn InferenceSpec (Z * JSON) (@GRPORequestStrategy R)).

(** where the i-th variant of the j-th built request ends up, with the
    strategy a factory configures for group size G (none when G = 1) *)
Lemma apply_strategy_lookup (st : option Strategy) G (u : U) (a : Args)
    (base : list Req) (j i : nat) idx sample :
  match st with None => G = 1 | Some s => group_size s = G end →
  base !! j = Some (build a idx sample) →
  (i < Z.to_nat G)%nat →
  ∃ r,
    (apply_strategy st u base).1.1 !! (j * Z.to_nat G + i)%nat = Some r ∧
    env r = mkEnvSpec (env_kind a) (env_kwargs_fn_final a sample) ∧
    protocol r = mkProtocolSpec (protocol_kind a) (protocol_kwargs_final a) ∧
    inference r = inference_spec a ∧
    num_episodes r = 1 ∧
    env_seed r = Some (env_seed_fn_final a idx sample) ∧
    sampling_seed r = Some (sampling_seed_fn_final a idx sample + Z.of_nat i) ∧
    (∀ key, key ≠ "group_id" → meta r !! key = meta (build a idx sample) !! key).
Proof.
  intros Hst Hbase Hi. destruct st as [s|]; simpl.
  - subst G. unfold GRPO_expand.
    pose proof (expand_loop_lookup (group_size s) base (grpo_rng s) u j
                  (build a idx sample)) as Hlookup.
    destruct ((group_choices base (grpo_rng s) u).1.1 !! j) as [c|] eqn:Hc.
    2:{ apply lookup_ge_None in Hc. rewrite group_choices_length in Hc.
        apply lookup_lt_Some in Hbase. lia. }
    specialize (Hlookup c i Hbase eq_refl Hi).
    destruct (group_choices_explicit base (grpo_rng s) u j _ c Hbase Hc) as [He Hb].
    destruct (expand_loop _ _ _ _ _) as [[out rng'] u']. simpl in *.
    eexists. split; [exact Hlookup|]. simpl.
    rewrite (He _ eq_refl), (Hb _ eq_refl). split_and!; try done.
    intros key Hkey. by rewrite lookup_insert_ne.
  - subst G. assert (i = 0)%nat as -> by lia.
    exists (build a idx sample). rewrite Nat.mul_1_r, Nat.add_0_r.
    split; [done|]. simpl. split_and!; try done. f_equal. lia.
Qed.



End EndToEnd.

Section DefaultSeeds.

Context {InferenceSpec : Type}.
Context {R : Type} `{!Random R} `{!RandomLaws R}.
Context {U : Type} `{!UUIDSource U}.
Context {Q : Type} `{!NonBlockingQueue Q (Z * JSON)}.

Local Abbreviation Req := (@RolloutRequest InferenceSpec).
Local Abbreviation Args := (@DatasetArgs InferenceSpec).
Local Abbreviation Source := (@SequenceRequestsFn InferenceSpec R).
Local Abbreviation QueueSource :=
  (@QueueRequestsFn InferenceSpec (Z * JSON) (@GRPORequestStrategy R)).

(** C5 (amended).  Without override functions the request a source builds
    for the sample at index idx has env_seed idx, sampling_seed idx and
    the kwargs {"sample": sample}; a call returns group_size requests for
    it, one after the other, all with env_seed idx and these kwargs, the
    i-th of them (from 0) with sampling_seed idx + i, so that with
    group_size 1 the request built is the request returned.  This holds
    for the queue source, for the index that comes with each item it
    pulls, and for the sequence source, whatever the shuffle, for every
    call and for the position idx the sample has in the dataset.  Other
    seed functions change the two seeds and nothing else. *)
Theorem default_seeds_returned (a : Args) samples do_shuffle rng_seed on_empty
    (entropy : R) (self : Source) (selfq : QueueSource) (q : Q) (u : U) (k : nat) :
  env_kwargs_fn a = None → env_seed_fn a = None → sampling_seed_fn a = None →
  make_dataset_sequence_requests_fn samples a do_shuffle rng_seed entropy = inr self →
  make_dataset_queue_requests_fn a on_empty entropy = inr selfq →
  (∀ idx sample,
     _build a (idx, sample) = build a idx sample ∧
     env_seed (build a idx sample) = Some idx ∧
     sampling_seed (build a idx sample) = Some idx ∧
     env (build a idx sample) = mkEnvSpec (env_kind a) {["sample" := sample]}) ∧
  (let items := omap id (queue_fn_pulls selfq q) in
   items ≠ [] →
   ∃ out,
     (queue_fn selfq q u).1.1.1 = ret out ∧
     length out = (length items * Z.to_nat (arg_group_size a))%nat ∧
     (arg_group_size a = 1 → out = _build a <$> items) ∧
     ∀ (j i : nat) idx sample,
       items !! j = Some (idx, sample) →
       (i < Z.to_nat (arg_group_size a))%nat →
       ∃ r,
         out !! (j * Z.to_nat (arg_group_size a) + i)%nat = Some r ∧
         env_seed r = Some idx ∧
         sampling_seed r = Some (idx + Z.of_nat i) ∧
         env r = mkEnvSpec (env_kind a) {["sample" := sample]}) ∧
  (let self_k := (sequence_calls k self u).1.2 in
   let u_k := (sequence_calls k self u).2 in
   ∃ base out,
     sequence_fn_base self_k = ret base ∧
     (sequence_fn self_k u_k).1.1 = ret out ∧
     length out = (length (sequence_fn_seen self_k)
                   * Z.to_nat (arg_group_size a))%nat ∧
     (arg_group_size a = 1 → out = base) ∧
     ∀ (j idx : nat),
       sequence_fn_seen self_k !! j = Some idx →
       ∃ sample,
         samples !! idx = Some sample ∧
         base !! j = Some (build a (Z.of_nat idx) sample) ∧
         ∀ i : nat, (i < Z.to_nat (arg_group_size a))%nat →
           ∃ r,
             out !! (j * Z.to_nat (arg_group_size a) + i)%nat = Some r ∧
             env_seed r = Some (Z.of_nat idx) ∧
             sampling_seed r = Some (Z.of_nat idx + Z.of_nat i) ∧
             env r = mkEnvSpec (env_kind a) {["sample" := sample]}) ∧
  (∀ (a0 : Args) f g idx sample,
     let r := build a0 idx sample in
     let r' := build (with_seed_fns a0 (Some f) (Some g)) idx sample in
     env r' = env r ∧ protocol r' = protocol r ∧
     num_episodes r' = num_episodes r ∧ inference r' = inference r ∧
     meta r' = meta r ∧
     env_seed r' = Some (f idx sample) ∧ sampling_seed r' = Some (g idx sample)).
Proof.
  intros Hkw Henv Hsamp Hmk Hmkq.
  assert (∀ idx sample, env_seed_fn_final a idx sample = idx) as Hef
    by (intros; unfold env_seed_fn_final; by rewrite Henv).
  assert (∀ idx sample, sampling_seed_fn_final a idx sample = idx) as Hsf
    by (intros; unfold sampling_seed_fn_final; by rewrite Hsamp).
  assert (∀ sample, env_kwargs_fn_final a sample = {["sample" := sample]}) as Hkf
    by (intros; unfold env_kwargs_fn_final; by rewrite Hkw).
  split_and!.
  - intros idx sample. split; [done|]. simpl. by rewrite Hef, Hsf, Hkf.
  - intros items Hitems.
    apply make_dataset_queue_requests_fn_inv in Hmkq as (HB & HG & ->).
    set (st := if decide (arg_group_size a ≠ 1)
               then Some (mkGRPORequestStrategy (arg_group_size a) entropy) else None).
    assert (match st with None => arg_group_size a = 1
                     | Some s => group_size s = arg_group_size a end) as Hst.
    { unfold st. case_decide; [done|]. lia. }
    unfold items, queue_fn_pulls in *. unfold queue_fn.
    cbn [q_build_request q_batch_size q_strategy q_on_empty] in *.
    destruct (drain_spec (_build a) (Z.to_nat (batch_size a)) q [] [])
      as (new & Hp & Hr & _).
    destruct (drain (_build a) (Z.to_nat (batch_size a)) q [] []) as [[reqs q'] pulls].
    simpl in Hp, Hr. subst pulls reqs. cbn [snd] in *.
    set (its := omap id new) in *.
    destruct (_build a <$> its) as [|r0 rs] eqn:Hreqs.
    { by destruct its. }
    rewrite <- Hreqs.
    pose proof (apply_strategy_length st u (_build a <$> its)) as Hlen.
    assert (∀ (j i : nat) idx sample, its !! j = Some (idx, sample) →
              (i < Z.to_nat (arg_group_size a))%nat → _) as Hall
      by (intros j i idx sample Hj Hi;
          refine (apply_strategy_lookup st (arg_group_size a) u a (_build a <$> its)
                    j i idx sample Hst _ Hi);
          by rewrite list_lookup_fmap, Hj).
    assert (arg_group_size a = 1 → (apply_strategy st u (_build a <$> its)).1.1
                                    = _build a <$> its) as Hone.
    { intros H1. unfold st. by rewrite decide_False by (intros Hc; by apply Hc). }
    destruct (apply_strategy st u (_build a <$> its)) as [[out st'] u']. simpl in *.
    exists out. split_and!; [done| |done|].
    + rewrite Hlen, length_fmap.
      destruct st as [s|]; [by rewrite Hst|]. rewrite Hst. simpl. lia.
    + intros j i idx sample Hj Hi.
      destruct (Hall j i idx sample Hj Hi)
        as (r & Hr & He & _ & _ & _ & Hes & Hss & _).
      exists r. rewrite Hef in Hes. rewrite Hsf in Hss. rewrite Hkf in He. done.
  - apply make_dataset_sequence_requests_fn_inv in Hmk as (Hne & HG & ->).
    destruct (initial_valid samples a do_shuffle rng_seed entropy Hne) as [Hv Hok].
    destruct (sequence_calls_final k _ u Hv Hok) as (Hvk & Hokk & Hsk & Hak & _).
    cbn zeta.
    set (self_k := (sequence_calls k _ u).1.2) in *.
    set (u_k := (sequence_calls k _ u).2).
    destruct (sequence_fn_spec self_k u_k Hvk)
      as (reqs & selfL & Hloop & HvL & Hsame & Hlen & Hserved & Hfn).
    simpl in Hsk, Hak.
    unfold strategy_ok in Hokk. rewrite Hak in Hokk.
    exists reqs, (apply_strategy (strategy self_k) u_k reqs).1.1. split_and!.
    + unfold sequence_fn_base. by rewrite Hloop.
    + by rewrite Hfn.
    + rewrite apply_strategy_length. apply Forall2_length in Hserved.
      destruct (strategy self_k) as [s|]; [by rewrite Hokk, Hserved|].
      rewrite Hokk, Hserved. simpl. lia.
    + intros H1. destruct (strategy self_k) as [s|] eqn:Hs; [|done]. exfalso.
      destruct (sequence_calls_final k _ u Hv Hok) as (_ & _ & _ & _ & _ & _ & Hg).
      fold self_k in Hg. rewrite Hs in Hg. simpl in Hg.
      rewrite decide_False in Hg by (intros Hc; by apply Hc). done.
    + intros j idx Hj.
      destruct (Forall2_lookup_l _ _ _ _ _ Hserved Hj) as (r0 & Hr0 & smp & Hsmp & ->).
      rewrite Hsk in Hsmp. rewrite Hak in Hr0.
      exists smp. split; [done|]. split; [done|].
      intros i Hi.
      destruct (apply_strategy_lookup (strategy self_k) (arg_group_size a) u_k a reqs j i
                  (Z.of_nat idx) smp Hokk Hr0 Hi)
        as (r & Hr & He & _ & _ & _ & Hes & Hss & _).
      exists r. rewrite Hef in Hes. rewrite Hsf in Hss. rewrite Hkf in He. done.
  - intros a0 f g idx sample. simpl. by split_and!.
Qed.

End DefaultSeeds.

Section Visitation.

Context {InferenceSpec : Type}.
Context {R : Type} `{!Random R} `{!RandomLaws R}.
Context {U : Type} `{!UUIDSource U}.

Local Abbreviation Args := (@DatasetArgs InferenceSpec).
Local Abbreviation Source := (@SequenceRequestsFn InferenceSpec R).

Lemma fresh_order_length n do_shuffle (rng : R) :
  length (fresh_order n do_shuffle rng).1 = n.
Proof. by rewrite fresh_order_Permutation, length_seq. Qed.

(** the first m of at least m epochs visit every index m times *)
Lemma epochs_take_Permutation (m j n : nat) do_shuffle (rng : R) :
  (m ≤ j)%nat →
  take (m * n) (epochs j n do_shuffle rng) ≡ₚ mjoin (replicate m (seq 0 n)).
Proof.
  revert j rng. induction m as [|m IH]; intros j rng Hj; [done|].
  destruct j as [|j]; [lia|]. cbn [epochs replicate mjoin list_join].
  pose proof (fresh_order_length n do_shuffle rng) as Hlen.
  pose proof (fresh_order_Permutation n do_shuffle rng) as Hperm.
  destruct (fresh_order n do_shuffle rng) as [o rng']. simpl in *.
  rewrite take_app_add' by done. rewrite Hperm. f_equiv. apply IH. lia.
Qed.

Lemma epochs_no_shuffle (j n : nat) (rng : R) :
  epochs j n false rng = mjoin (replicate j (seq 0 n)).
Proof. induction j as [|j IH]; [done|]. simpl. by rewrite IH. Qed.

Lemma lookup_join_replicate_seq (j n t : nat) :
  (t < j * n)%nat → mjoin (replicate j (seq 0 n)) !! t = Some (t `mod` n)%nat.
Proof.
  intros Ht. assert (n ≠ 0)%nat as Hn by lia.
  rewrite (Nat.div_mod_eq t n) at 1. rewrite (Nat.mul_comm n).
  apply (join_lookup_Some_same_length' n).
  - apply Forall_replicate. apply length_seq.
  - by apply Nat.mod_upper_bound.
  - exists (seq 0 n). split.
    + apply lookup_replicate_2. apply Nat.Div0.div_lt_upper_bound. lia.
    + apply lookup_seq_lt. by apply Nat.mod_upper_bound.
Qed.

(** X8.  Over calls that together serve m * len(samples) indices, each
    index of the dataset is served exactly m times, with or without
    shuffling: the indices served are a rearrangement of m copies of
    range(len(samples)). *)
Theorem sequence_epochs_balanced samples (a : Args) do_shuffle rng_seed (entropy : R)
    (self : Source) (u : U) (k m : nat) :
  make_dataset_sequence_requests_fn samples a do_shuffle rng_seed entropy = inr self →
  (k * Z.to_nat (batch_size a) = m * length samples)%nat →
  mjoin (sequence_calls k self u).1.1.2 ≡ₚ mjoin (replicate m (seq 0 (length samples))).
Proof.
  intros Hmk Hkm.
  apply make_dataset_sequence_requests_fn_inv in Hmk as (Hne & HG & ->).
  destruct (initial_valid samples a do_shuffle rng_seed entropy Hne) as [Hv Hok].
  destruct (sequence_calls_spec k _ u (k * Z.to_nat (batch_size a)) Hv Hok)
    as (_ & _ & _ & _ & Hjoin & _); [done|].
  rewrite Hjoin, initial_stream.
  change (args (initial samples a do_shuffle rng_seed entropy)) with a.
  rewrite Hkm. apply epochs_take_Permutation.
  destruct samples; [done|]. simpl. lia.
Qed.

(** X9.  Without shuffling the source walks the dataset round and round:
    the t-th index served since construction (from 0, over all calls) is
    t mod len(samples). *)
Theorem sequence_no_shuffle_cycles samples (a : Args) rng_seed (entropy : R)
    (self : Source) (u : U) (k t : nat) :
  make_dataset_sequence_requests_fn samples a false rng_seed entropy = inr self →
  (t < k * Z.to_nat (batch_size a))%nat →
  mjoin (sequence_calls k self u).1.1.2 !! t = Some (t `mod` length samples)%nat.
Proof.
  intros Hmk Ht.
  apply make_dataset_sequence_requests_fn_inv in Hmk as (Hne & HG & ->).
  destruct (initial_valid samples a false rng_seed entropy Hne) as [Hv Hok].
  destruct (sequence_calls_spec k _ u (k * Z.to_nat (batch_size a)) Hv Hok)
    as (_ & _ & _ & _ & Hjoin & _); [done|].
  rewrite Hjoin, initial_stream.
  change (args (initial samples a false rng_seed entropy)) with a.
  rewrite lookup_take_lt by done.
  rewrite epochs_no_shuffle. apply lookup_join_replicate_seq.
  destruct samples; [done|]. simpl length. lia.
Qed.

(** X10.  The order in which indices are served does not depend on how it
    is cut into batches: two sources over datasets of the same length
    with the same shuffle flag and rng_seed, but different batch sizes
    (and any other arguments), have served the same sequence of indices
    once they have served equally many. *)
Theorem sequence_order_independent_of_batch_size samples1 samples2 (a1 a2 : Args)
    do_shuffle rng_seed (entropy1 entropy2 : R) (self1 self2 : Source) (u1 u2 : U)
    (k1 k2 : nat) :
  make_dataset_sequence_requests_fn samples1 a1 do_shuffle rng_seed entropy1
    = inr self1 →
  make_dataset_sequence_requests_fn samples2 a2 do_shuffle rng_seed entropy2
    = inr self2 →
  length samples1 = length samples2 →
  (k1 * Z.to_nat (batch_size a1) = k2 * Z.to_nat (batch_size a2))%nat →
  mjoin (sequence_calls k1 self1 u1).1.1.2 = mjoin (sequence_calls k2 self2 u2).1.1.2.
Proof.
  intros H1 H2 Hlen Hk.
  apply make_dataset_sequence_requests_fn_inv in H1 as (Hne1 & HG1 & ->).
  apply make_dataset_sequence_requests_fn_inv in H2 as (Hne2 & HG2 & ->).
  destruct (initial_valid samples1 a1 do_shuffle rng_seed entropy1 Hne1) as [Hv1 Hok1].
  destruct (initial_valid samples2 a2 do_shuffle rng_seed entropy2 Hne2) as [Hv2 Hok2].
  destruct (sequence_calls_spec k1 _ u1 (k1 * Z.to_nat (batch_size a1)) Hv1 Hok1)
    as (_ & _ & _ & _ & Hjoin1 & _); [done|].
  destruct (sequence_calls_spec k2 _ u2 (k2 * Z.to_nat (batch_size a2)) Hv2 Hok2)
    as (_ & _ & _ & _ & Hjoin2 & _); [done|].
  rewrite Hjoin1, Hjoin2, !initial_stream.
  change (args (initial samples1 a1 do_shuffle rng_seed entropy1)) with a1.
  change (args (initial samples2 a2 do_shuffle rng_seed entropy2)) with a2.
  by rewrite Hk, Hlen.
Qed.

Lemma sequence_loop_cursor n (self : Source) reqs seen :
  valid_source self →
  (n = 0%nat → 1 ≤ pos self ≤ length (order self))%nat →
  (1 ≤ pos (sequence_loop n self reqs seen).1.2
     ≤ length (order (sequence_loop n self reqs seen).1.2))%nat ∧
  (do_shuffle self = false → order self = seq 0 (length (samples self)) →
   rng (sequence_loop n self reqs seen).1.2 = rng self ∧
   order (sequence_loop n self reqs seen).1.2 = order self).
Proof.
  revert self reqs seen. induction n as [|n IH]; intros self reqs seen Hv H0.
  - simpl. split; [by apply H0|done].
  - destruct (wrap_valid self Hv) as (Hv' & Hpos & Hs & Ha & Hsh & Hst).
    assert (do_shuffle self = false → order self = seq 0 (length (samples self)) →
            rng (wrap self) = rng self ∧ order (wrap self) = order self) as Hwrap.
    { intros Hno Hord. unfold wrap. case_decide; [|done].
      unfold fresh_order. rewrite Hno. simpl. by rewrite Hord. }
    cbn [sequence_loop].
    destruct (order (wrap self) !! pos (wrap self)) as [idx|] eqn:Hidx.
    2:{ apply lookup_ge_None in Hidx. lia. }
    pose proof (valid_source_lookup _ _ _ Hv' Hidx) as Hlt.
    set (self1 := with_cursor (wrap self) (rng (wrap self)) (order (wrap self))
                    (S (pos (wrap self)))).
    change (samples self1) with (samples (wrap self)).
    destruct (samples (wrap self) !! idx) as [sample|] eqn:Hsample.
    2:{ apply lookup_ge_None in Hsample. lia. }
    assert (valid_source self1) as Hv1 by (split; apply Hv').
    destruct (IH self1 (reqs ++ [build (args self1) (Z.of_nat idx) sample])
                (seen ++ [idx]) Hv1) as [Hbound Hkeep].
    { intros _. simpl. lia. }
    split; [exact Hbound|].
    intros Hno Hord. destruct (Hwrap Hno Hord) as [Hr Ho].
    destruct Hkeep as [Hr1 Ho1].
    + unfold self1. simpl. congruence.
    + unfold self1. simpl. congruence.
    + change (rng self1) with (rng (wrap self)) in Hr1.
      change (order self1) with (order (wrap self)) in Ho1.
      split; congruence.
Qed.

Lemma sequence_calls_cursor k (self : Source) (u : U) :
  valid_source self →
  0 < batch_size (args self) →
  (k ≠ 0%nat ∨ 1 ≤ pos self ≤ length (order self))%nat →
  (1 ≤ pos (sequence_calls k self u).1.2
     ≤ length (order (sequence_calls k self u).1.2))%nat ∧
  (do_shuffle self = false → order self = seq 0 (length (samples self)) →
   rng (sequence_calls k self u).1.2 = rng self ∧
   order (sequence_calls k self u).1.2 = order self).
Proof.
  revert self u. induction k as [|k IH]; intros self u Hv HB Hstart.
  - simpl. split; [by destruct Hstart|done].
  - cbn [sequence_calls].
    destruct (sequence_fn_spec self u Hv)
      as (reqs & selfL & Hloop & HvL & Hsame & Hlen & Hserved & Hfn).
    rewrite Hfn.
    set (st' := (apply_strategy (strategy self) u reqs).1.2).
    set (u' := (apply_strategy (strategy self) u reqs).2).
    set (self' := with_strategy selfL st').
    destruct Hsame as (Hs & Ha & Hsh & Hst).
    assert (valid_source self') as Hv' by (split; apply HvL).
    destruct (sequence_loop_cursor (Z.to_nat (batch_size (args self))) self [] [] Hv)
      as [Hbound Hkeep]; [lia|].
    rewrite Hloop in Hbound, Hkeep. simpl in Hbound, Hkeep.
    destruct (IH self' u' Hv') as [IHb IHk].
    { unfold self'. simpl. by rewrite Ha. }
    { right. exact Hbound. }
    destruct (sequence_calls k self' u') as [[[outs seens] self''] u'']. simpl in *.
    split; [exact IHb|].
    intros Hno Hord. destruct (Hkeep Hno Hord) as [Hr Ho].
    destruct IHk as [Hr2 Ho2]; [congruence|congruence|]. split; congruence.
Qed.

(** X11.  After any number of calls the cursor of a source is well formed:
    the order is a rearrangement of all indices and, once a call has been
    made, pos lies in 1..len(samples).  Without shuffle the order stays
    range(len(samples)) and the source's generator is never advanced. *)
Theorem sequence_cursor_invariant samples (a : Args) do_shuffle rng_seed (entropy : R)
    (self : Source) (u : U) (k : nat) :
  make_dataset_sequence_requests_fn samples a do_shuffle rng_seed entropy = inr self →
  0 < batch_size a →
  order (sequence_calls k self u).1.2 ≡ₚ seq 0 (length samples) ∧
  (k ≠ 0%nat → 1 ≤ pos (sequence_calls k self u).1.2 ≤ length samples)%nat ∧
  (do_shuffle = false →
   order (sequence_calls k self u).1.2 = seq 0 (length samples) ∧
   rng (sequence_calls k self u).1.2 = Random_seeded rng_seed).
Proof.
  intros Hmk HB.
  apply make_dataset_sequence_requests_fn_inv in Hmk as (Hne & HG & ->).
  destruct (initial_valid samples a do_shuffle rng_seed entropy Hne) as [Hv Hok].
  destruct (sequence_calls_final k _ u Hv Hok) as ([_ Hperm] & _ & Hsk & _).
  simpl in Hsk. rewrite Hsk in Hperm.
  split; [exact Hperm|]. split.
  - intros Hk.
    destruct (sequence_calls_cursor k _ u Hv HB) as [Hbound _]; [by left|].
    rewrite Hperm, length_seq in Hbound. exact Hbound.
  - intros ->. destruct k as [|k]; [done|].
    destruct (sequence_calls_cursor (S k) (initial samples a false rng_seed entropy) u
                Hv HB) as [_ Hkeep]; [by left|].
    destruct Hkeep as [Hr Ho]; [done|done|]. by rewrite Hr, Ho.
Qed.

End Visitation.

Section Construction.

Context {InferenceSpec : Type}.
Context {R : Type} `{!Random R}.
Context {U : Type} `{!UUIDSource U}.

Local Abbreviation Req := (@RolloutRequest InferenceSpec).
Local Abbreviation Args := (@DatasetArgs InferenceSpec).
Local Abbreviation Store := (gmap loc (@object InferenceSpec)).

(** X12.  What the two dataset factories return, case by case.  The queue
    factory reports a group_size that is not positive before a batch_size
    that is not positive; the sequence factory reports an empty dataset
    before such a group_size and never looks at batch_size; with
    group_size 1 no strategy is built; in every other case construction
    succeeds. *)
Theorem factory_construction_outcome (a : Args) samples do_shuffle rng_seed on_empty
    (entropy : R) :
  make_dataset_queue_requests_fn a on_empty entropy =
    (if decide (arg_group_size a ≤ 0) then
       raise (ValueError ("group_size must be positive, got "
                          +:+ pretty (arg_group_size a)))
     else if decide (batch_size a ≤ 0) then
       raise (ValueError ("batch_size must be positive, got " +:+ pretty (batch_size a)))
     else
       ret (mkQueueRequestsFn (batch_size a) (_build a)
              (if decide (arg_group_size a = 1) then None
               else Some (mkGRPORequestStrategy (arg_group_size a) entropy))
              on_empty)) ∧
  make_dataset_sequence_requests_fn samples a do_shuffle rng_seed entropy =
    match samples with
    | [] => raise (ValueError "samples must be non-empty")
    | _ :: _ =>
        if decide (arg_group_size a ≤ 0) then
          raise (ValueError ("group_size must be positive, got "
                             +:+ pretty (arg_group_size a)))
        else
          ret (mkSequenceRequestsFn samples a do_shuffle
                 (fresh_order (length samples) do_shuffle (Random_seeded rng_seed)).2
                 (fresh_order (length samples) do_shuffle (Random_seeded rng_seed)).1
                 O
                 (if decide (arg_group_size a = 1) then None
                  else Some (mkGRPORequestStrategy (arg_group_size a) entropy)))
    end.
Proof.
  split.
  - unfold make_dataset_queue_requests_fn, make_strategy, GRPORequestStrategy_init,
      make_requests_fn_from_queue.
    repeat case_decide; simpl; repeat case_decide; done || lia.
  - unfold make_dataset_sequence_requests_fn, make_strategy, GRPORequestStrategy_init.
    destruct samples as [|x xs]; [done|].
    destruct (fresh_order _ _ _) as [order0 rng0]. simpl.
    repeat case_decide; simpl; done || lia.
Qed.

Lemma meta_loc_mono (h h' : Store) l m :
  h ⊆ h' → meta_loc h l = Some m → meta_loc h' l = Some m.
Proof.
  unfold meta_loc. intros Hsub Hm.
  destruct (get_request h l) as [o|] eqn:Ho; [|done].
  by rewrite (get_request_mono _ _ _ _ Hsub Ho).
Qed.

Lemma store_variant_fresh (h0 : Store) base e b gid i l h1 :
  store_variant h0 base e b gid i = Some (l, h1) →
  ∃ m, h0 ⊆ h1 ∧ meta_loc h1 l = Some m ∧ l ≠ m ∧
       h0 !! l = None ∧ h0 !! m = None ∧ is_Some (h1 !! l) ∧ is_Some (h1 !! m).
Proof.
  unfold store_variant.
  destruct (get_request h0 base) as [o|]; [|done]. simpl.
  destruct (get_dict h0 (o_meta o)) as [d|]; [|done]. simpl.
  set (new_meta := fresh (dom h0)).
  set (hm := <[new_meta := ODict (<["group_id" := JStr gid]> d)]> h0).
  set (new_req := fresh (dom hm)).
  assert (h0 !! new_meta = None) as Hfresh1 by apply not_elem_of_dom, is_fresh.
  assert (hm !! new_req = None) as Hfresh2 by apply not_elem_of_dom, is_fresh.
  assert (new_meta ≠ new_req) as Hne.
  { intros Heq. rewrite <- Heq in Hfresh2. unfold hm in Hfresh2.
    by rewrite lookup_insert_eq in Hfresh2. }
  intros [= <- <-]. exists new_meta. split_and!.
  - etrans; by apply insert_subseteq.
  - unfold meta_loc, get_request. by rewrite lookup_insert_eq.
  - done.
  - unfold hm in Hfresh2. by rewrite lookup_insert_ne in Hfresh2.
  - done.
  - rewrite lookup_insert_eq. eauto.
  - rewrite lookup_insert_ne by done. unfold hm. rewrite lookup_insert_eq. eauto.
Qed.

Lemma freshly_allocated_snoc (h h0 h1 : Store) out metas l m :
  freshly_allocated h h0 out metas →
  h0 ⊆ h1 → meta_loc h1 l = Some m → l ≠ m →
  h0 !! l = None → h0 !! m = None → is_Some (h1 !! l) → is_Some (h1 !! m) →
  freshly_allocated h h1 (out ++ [l]) (metas ++ [m]).
Proof.
  intros (Hsub & Hmetas & Hnodup & Hfresh) Hsub1 Hm Hne Hl0 Hm0 Hl1 Hm1.
  assert (∀ x, x ∈ out ++ metas → x ≠ l ∧ x ≠ m) as Hold.
  { intros x Hx. destruct (Hfresh x Hx) as [_ [o Ho]].
    split; intros ->; congruence. }
  split_and!.
  - by etrans.
  - apply Forall2_app.
    + eapply Forall2_impl; [exact Hmetas|]. intros x y. by apply meta_loc_mono.
    + by repeat constructor.
  - assert ((out ++ [l]) ++ metas ++ [m] ≡ₚ l :: m :: (out ++ metas)) as ->.
    { rewrite (Permutation_app_comm out [l]), (Permutation_app_comm metas [m]).
      simpl. by rewrite <- Permutation_middle. }
    apply NoDup_cons. split; [|apply NoDup_cons; split; [|done]].
    + intros [->|Hin]%elem_of_cons; [done|]. by destruct (Hold l Hin).
    + intros Hin. by destruct (Hold m Hin).
  - intros x Hx.
    assert (x ∈ out ++ metas ∨ x = l ∨ x = m) as Hcases.
    { rewrite !elem_of_app, !list_elem_of_singleton in Hx.
      rewrite elem_of_app. tauto. }
    destruct Hcases as [Hin|Hcases]; [|destruct Hcases; subst x].
    + destruct (Hfresh x Hin) as [Hnone [o Ho]]. split; [done|].
      exists o. by eapply lookup_weaken.
    + split; [|done]. eapply lookup_weaken_None; [exact Hl0|done].
    + split; [|done]. eapply lookup_weaken_None; [exact Hm0|done].
Qed.

Lemma store_group_fresh range (h h0 : Store) base e b gid out metas out' h1 :
  freshly_allocated h h0 out metas →
  store_group range h0 base e b gid out = Some (out', h1) →
  ∃ metas', freshly_allocated h h1 out' metas'.
Proof.
  revert h0 out metas. induction range as [|i range IH]; intros h0 out metas Hinv; simpl.
  - intros [= <- <-]. by exists metas.
  - destruct (store_variant h0 base e b gid i) as [[l h2]|] eqn:Hv; [|done]. simpl.
    destruct (store_variant_fresh _ _ _ _ _ _ _ _ Hv)
      as (m & Hsub & Hm & Hne & Hl0 & Hm0 & Hl1 & Hm1).
    apply IH with (metas ++ [m]). by eapply freshly_allocated_snoc.
Qed.

Lemma store_expand_loop_fresh G requests (rng : R) (u : U) (h h0 : Store) out metas
    out' rng' u' h' :
  freshly_allocated h h0 out metas →
  store_expand_loop G requests rng u h0 out = Some (out', rng', u', h') →
  ∃ metas', freshly_allocated h h' out' metas'.
Proof.
  revert rng u h0 out metas.
  induction requests as [|base rest IH]; intros rng u h0 out metas Hinv; simpl.
  - intros [= <- <- <- <-]. by exists metas.
  - destruct (get_request h0 base) as [o|]; [|done]. simpl.
    destruct (pick_seed (o_env_seed o) rng) as [e rng1].
    destruct (pick_seed (o_sampling_seed o) rng1) as [b rng2].
    destruct (uuid4 u) as [gid u1].
    destruct (store_group (seqZ 0 G) h0 base e b gid out) as [[out1 h1]|] eqn:Hg;
      [|done]. simpl.
    destruct (store_group_fresh _ _ _ _ _ _ _ _ _ _ _ Hinv Hg) as (metas1 & Hinv1).
    by apply IH with metas1.
Qed.

(** X13.  Whatever expand returns is new: every returned request object and
    the meta dict it refers to sit at locations that were unused before
    the call, and no two of these locations coincide.  So no output shares
    its meta dict with an input request or with another output. *)
Theorem store_expand_fresh G (requests : list loc) (rng : R) (u : U) (h : Store)
    out rng' u' h' :
  store_expand_loop G requests rng u h [] = Some (out, rng', u', h') →
  ∃ metas,
    Forall2 (λ l m, meta_loc h' l = Some m) out metas ∧
    NoDup (out ++ metas) ∧
    ∀ l, l ∈ out ++ metas → h !! l = None ∧ is_Some (h' !! l).
Proof.
  intros Hrun.
  destruct (store_expand_loop_fresh G requests rng u h h [] [] out rng' u' h')
    as (metas & _ & Hmetas & Hnodup & Hfresh); [|exact Hrun|by exists metas].
  split_and!; [done|constructor|constructor|]. intros l Hl. by apply elem_of_nil in Hl.
Qed.

End Construction.

Section AcrossCalls.

Context {InferenceSpec : Type}.
Context {R : Type} `{!Random R}.
Context {U : Type} `{!UUIDSource U}.

Local Abbreviation Req := (@RolloutRequest InferenceSpec).
Local Abbreviation Strategy := (@GRPORequestStrategy R).

Lemma expand_loop_group_id G (requests : list Req) (rng : R) (u : U) k base (i : nat) :
  requests !! k = Some base →
  (i < Z.to_nat G)%nat →
  ∃ r gid,
    (expand_loop G requests rng u []).1.1 !! (k * Z.to_nat G + i)%nat = Some r ∧
    meta r !! "group_id" = Some (JStr gid) ∧
    uuid_draws (length requests) u !! k = Some gid.
Proof.
  intros Hbase Hi.
  destruct ((group_choices requests rng u).1.1 !! k) as [c|] eqn:Hc.
  2:{ apply lookup_ge_None in Hc. rewrite group_choices_length in Hc.
      apply lookup_lt_Some in Hbase. lia. }
  exists (variant base c.1.1 c.1.2 c.2 (Z.of_nat i)), c.2.
  split; [by apply expand_loop_lookup|]. split; [apply lookup_insert_eq|].
  rewrite <- (group_choices_ids requests rng u). by rewrite list_lookup_fmap, Hc.
Qed.

(** X14.  Group ids do not collide across calls either: when one strategy
    object expands a batch and then another one, a request of the first
    output and a request of the second carry different group ids,
    provided the tokens uuid4 hands out during the two calls do not
    repeat. *)
Theorem GRPO_group_ids_across_calls (self : Strategy) (u : U) (xs ys : list Req)
    (p1 p2 : nat) (r1 r2 : Req) :
  NoDup (uuid_draws (length xs + length ys) u) →
  (expand self u xs).1.1 !! p1 = Some r1 →
  (expand (expand self u xs).1.2 (expand self u xs).2 ys).1.1 !! p2 = Some r2 →
  meta r1 !! "group_id" ≠ meta r2 !! "group_id".
Proof.
  intros Hfresh H1 H2.
  set (G := Z.to_nat (group_size self)).
  rewrite GRPO_expand_unfold in H1. rewrite GRPO_expand_unfold in H2.
  rewrite (GRPO_expand_unfold self u xs) in H2.
  cbn [fst snd group_size grpo_rng] in H1, H2.
  set (all := (expand_loop (group_size self) (xs ++ ys) (grpo_rng self) u []).1.1).
  pose proof (expand_loop_length (group_size self) xs (grpo_rng self) u) as Hlen1.
  fold G in Hlen1.
  assert (all !! p1 = Some r1) as Hall1.
  { unfold all. rewrite expand_loop_app_out. apply lookup_app_l_Some. exact H1. }
  assert (all !! (length xs * G + p2)%nat = Some r2) as Hall2.
  { unfold all. rewrite expand_loop_app_out. rewrite lookup_app_r by lia.
    rewrite Hlen1. replace (length xs * G + p2 - length xs * G)%nat with p2 by lia.
    exact H2. }
  assert (p1 < length xs * G)%nat as Hp1.
  { rewrite <- Hlen1. by eapply lookup_lt_Some. }
  assert (G ≠ 0)%nat as HG by (intros Hz; rewrite Hz in Hp1; lia).
  assert (p2 < length ys * G)%nat as Hp2.
  { apply lookup_lt_Some in H2. by rewrite expand_loop_length in H2. }
  set (k1 := (p1 / G)%nat). set (k2 := (length xs + p2 / G)%nat).
  assert (k1 < length xs)%nat as Hk1 by (apply Nat.Div0.div_lt_upper_bound; lia).
  assert (p2 / G < length ys)%nat as Hk2' by (apply Nat.Div0.div_lt_upper_bound; lia).
  destruct ((xs ++ ys) !! k1) as [b1|] eqn:Hb1.
  2:{ apply lookup_ge_None in Hb1. rewrite length_app in Hb1. lia. }
  destruct ((xs ++ ys) !! k2) as [b2|] eqn:Hb2.
  2:{ apply lookup_ge_None in Hb2. rewrite length_app in Hb2. unfold k2 in Hb2. lia. }
  destruct (expand_loop_group_id (group_size self) (xs ++ ys) (grpo_rng self) u k1 b1
              (p1 `mod` G) Hb1) as (r1' & gid1 & Hr1 & Hg1 & Hd1).
  { by apply Nat.mod_upper_bound. }
  destruct (expand_loop_group_id (group_size self) (xs ++ ys) (grpo_rng self) u k2 b2
              (p2 `mod` G) Hb2) as (r2' & gid2 & Hr2 & Hg2 & Hd2).
  { by apply Nat.mod_upper_bound. }
  fold G in Hr1, Hr2. fold all in Hr1, Hr2.
  replace (k1 * G + p1 `mod` G)%nat with p1 in Hr1
    by (unfold k1; rewrite (Nat.div_mod_eq p1 G) at 1; lia).
  replace (k2 * G + p2 `mod` G)%nat with (length xs * G + p2)%nat in Hr2
    by (unfold k2; rewrite (Nat.div_mod_eq p2 G) at 1; lia).
  rewrite Hall1 in Hr1. rewrite Hall2 in Hr2.
  injection Hr1 as <-. injection Hr2 as <-.
  rewrite Hg1, Hg2. intros [= Heq]. subst gid2.
  rewrite length_app in Hd1, Hd2.
  pose proof (NoDup_lookup _ _ _ _ Hfresh Hd1 Hd2). unfold k1, k2 in *. lia.
Qed.

End AcrossCalls.

Section Identity.

Context {InferenceSpec : Type}.
Context {U : Type} `{!UUIDSource U}.
Context {Q Item : Type} `{!NonBlockingQueue Q Item}.

Local Abbreviation Req := (@RolloutRequest InferenceSpec).

(** X15.  Passing IdentityStrategy to make_requests_fn_from_queue is the
    same as passing no strategy: over any number of calls on the same
    queue the two sources return the same outcomes. *)
Theorem identity_strategy_is_no_strategy batch_size (build_request : Item → Req)
    on_empty (with_identity without : QueueRequestsFn Item IdentityStrategy)
    (q : Q) (u : U) (k : nat) :
  make_requests_fn_from_queue batch_size build_request (Some mkIdentityStrategy) on_empty
    = inr with_identity →
  make_requests_fn_from_queue batch_size build_request None on_empty = inr without →
  queue_calls k with_identity q u = queue_calls k without q u.
Proof.
  intros [_ ->]%make_requests_fn_from_queue_ok [_ ->]%make_requests_fn_from_queue_ok.
  revert q u. induction k as [|k IH]; intros q u; [done|].
  cbn [queue_calls]. unfold queue_fn. cbn [q_build_request q_batch_size q_on_empty
    q_strategy].
  destruct (drain build_request (Z.to_nat batch_size) q [] []) as [[reqs q'] pulls].
  destruct reqs as [|r reqs].
  - destruct (String.eqb on_empty "return_empty"); by rewrite IH.
  - simpl. by rewrite IH.
Qed.

End Identity.

(** ** Instances of the further properties on concrete inputs *)

Module MoreWitnesses.

Import Counter Examples Witnesses.

(** the counter generator's randint stays within its bounds *)
#[export] Instance Counter_range : RandomRange nat.
Proof.
  split. intros lo hi r Hle. simpl.
  pose proof (Z.mod_pos_bound (Z.of_nat r) (hi - lo + 1)). lia.
Qed.

Lemma GRPO_fallback_seed_range_witness :
  two_requests !! 0%nat = Some (request (Some 7) None {["sample_index" := JInt 7]}) ∧
  (1 < Z.to_nat (group_size (mkGRPORequestStrategy 2 0%nat)))%nat ∧
  ∃ r s,
    (expand (mkGRPORequestStrategy 2 0%nat) 0%nat two_requests).1.1 !! 1%nat = Some r ∧
    sampling_seed r = Some s ∧ 1 ≤ s ≤ 2 ^ 32.
Proof.
  split; [reflexivity|]. split; [simpl; lia|].
  destruct (GRPO_fallback_seed_range (mkGRPORequestStrategy 2 0%nat) 0%nat two_requests
              0 1 (request (Some 7) None {["sample_index" := JInt 7]}))
    as (r & e & s & Hr & _ & Hs & _ & Hrange); [reflexivity|simpl; lia|].
  exists r, s. split; [exact Hr|]. split; [exact Hs|].
  specialize (Hrange eq_refl). lia.
Defined.

Lemma queue_calls_fifo_witness :
  make_requests_fn_from_queue 2 (_build (plain_args 2 1)) None "raise" = inr queue_of_two ∧
  length (queue_calls 4 queue_of_two five_items 0%nat) = 4%nat.
Proof.
  split; [reflexivity|].
  rewrite (queue_calls_fifo 2 (_build (plain_args 2 1)) "raise" queue_of_two five_items
             0%nat 4 eq_refl).
  reflexivity.
Defined.



Lemma sequence_epochs_balanced_witness :
  make_dataset_sequence_requests_fn [A; B; C] (plain_args 2 1) true 11 0%nat
    = inr (initial [A; B; C] (plain_args 2 1) true 11 0%nat) ∧
  (3 * Z.to_nat (batch_size (plain_args 2 1)) = 2 * length [A; B; C])%nat ∧
  mjoin (sequence_calls 3 (initial [A; B; C] (plain_args 2 1) true 11 0%nat) 0%nat).1.1.2
    ≡ₚ mjoin (replicate 2 (seq 0 (length [A; B; C]))).
Proof.
  split; [reflexivity|]. split; [reflexivity|].
  apply (sequence_epochs_balanced [A; B; C] (plain_args 2 1) true 11 0%nat _ 0%nat 3 2);
    reflexivity.
Defined.

Lemma sequence_no_shuffle_cycles_witness :
  make_dataset_sequence_requests_fn [A; B; C] (plain_args 2 1) false 11 0%nat
    = inr (initial [A; B; C] (plain_args 2 1) false 11 0%nat) ∧
  (4 < 3 * Z.to_nat (batch_size (plain_args 2 1)))%nat ∧
  mjoin (sequence_calls 3 (initial [A; B; C] (plain_args 2 1) false 11 0%nat)
           0%nat).1.1.2 !! 4%nat
    = Some (4 `mod` length [A; B; C])%nat.
Proof.
  split; [reflexivity|]. split; [simpl; lia|].
  apply (sequence_no_shuffle_cycles [A; B; C] (plain_args 2 1) 11 0%nat _ 0%nat 3 4);
    [reflexivity|simpl; lia].
Defined.

Lemma sequence_order_independent_of_batch_size_witness :
  make_dataset_sequence_requests_fn [A; B; C] (plain_args 2 1) true 11 0%nat
    = inr (initial [A; B; C] (plain_args 2 1) true 11 0%nat) ∧
  make_dataset_sequence_requests_fn [C; C; A] (plain_args 3 2) true 11 8%nat
    = inr (initial [C; C; A] (plain_args 3 2) true 11 8%nat) ∧
  length [A; B; C] = length [C; C; A] ∧
  (3 * Z.to_nat (batch_size (plain_args 2 1))
   = 2 * Z.to_nat (batch_size (plain_args 3 2)))%nat ∧
  mjoin (sequence_calls 3 (initial [A; B; C] (plain_args 2 1) true 11 0%nat) 0%nat).1.1.2
    = mjoin (sequence_calls 2 (initial [C; C; A] (plain_args 3 2) true 11 8%nat)
               5%nat).1.1.2.
Proof.
  split; [reflexivity|]. split; [reflexivity|]. split; [reflexivity|].
  split; [reflexivity|].
  apply (sequence_order_independent_of_batch_size [A; B; C] [C; C; A] (plain_args 2 1)
           (plain_args 3 2) true 11 0%nat 8%nat _ _ 0%nat 5%nat 3 2); reflexivity.
Defined.

Lemma sequence_cursor_invariant_witness :
  make_dataset_sequence_requests_fn [A; B; C] (plain_args 2 1) true 11 0%nat
    = inr (initial [A; B; C] (plain_args 2 1) true 11 0%nat) ∧
  0 < batch_size (plain_args 2 1) ∧
  order (sequence_calls 5 (initial [A; B; C] (plain_args 2 1) true 11 0%nat) 0%nat).1.2
    ≡ₚ seq 0 (length [A; B; C]).
Proof.
  split; [reflexivity|]. split; [reflexivity|].
  destruct (sequence_cursor_invariant [A; B; C] (plain_args 2 1) true 11 0%nat
              (initial [A; B; C] (plain_args 2 1) true 11 0%nat) 0%nat 5)
    as (Hperm & _); [reflexivity|reflexivity|exact Hperm].
Defined.

Lemma store_expand_fresh_witness :
  ∃ out rng' u' h',
    store_expand_loop 2 [2%positive] 0%nat 0%nat one_request_store []
      = Some (out, rng', u', h') ∧
    ∃ metas, NoDup (out ++ metas) ∧
             ∀ l, l ∈ out ++ metas → one_request_store !! l = None.
Proof.
  destruct (store_expand_loop 2 [2%positive] 0%nat 0%nat one_request_store [])
    as [[[[out rng'] u'] h']|] eqn:Hrun; [|vm_compute in Hrun; discriminate Hrun].
  exists out, rng', u', h'. split; [reflexivity|].
  destruct (store_expand_fresh 2 [2%positive] 0%nat 0%nat one_request_store
              out rng' u' h' Hrun) as (metas & _ & Hnodup & Hfresh).
  exists metas. split; [exact Hnodup|]. intros l Hl. by destruct (Hfresh l Hl).
Defined.

Lemma GRPO_group_ids_across_calls_witness :
  NoDup (uuid_draws (length two_requests + length two_requests) 0%nat) ∧
  ∃ r1 r2,
    (expand (mkGRPORequestStrategy 2 0%nat) 0%nat two_requests).1.1 !! 3%nat = Some r1 ∧
    (expand (expand (mkGRPORequestStrategy 2 0%nat) 0%nat two_requests).1.2
            (expand (mkGRPORequestStrategy 2 0%nat) 0%nat two_requests).2
            two_requests).1.1 !! 3%nat = Some r2 ∧
    meta r1 !! "group_id" ≠ meta r2 !! "group_id".
Proof.
  assert (NoDup (uuid_draws (length two_requests + length two_requests) 0%nat)) as Hfresh.
  { apply (bool_decide_unpack (NoDup (uuid_draws _ 0%nat))). vm_compute. exact I. }
  split; [exact Hfresh|].
  eexists _, _. split; [reflexivity|]. split; [reflexivity|].
  apply (GRPO_group_ids_across_calls (mkGRPORequestStrategy 2 0%nat) 0%nat two_requests
           two_requests 3 3 _ _ Hfresh); reflexivity.
Defined.

Lemma identity_strategy_is_no_strategy_witness :
  make_requests_fn_from_queue 2 (_build (plain_args 2 1)) (Some mkIdentityStrategy) "raise"
    = inr (mkQueueRequestsFn 2 (_build (plain_args 2 1)) (Some mkIdentityStrategy) "raise") ∧
  make_requests_fn_from_queue 2 (_build (plain_args 2 1)) (None : option IdentityStrategy)
    "raise"
    = inr (mkQueueRequestsFn 2 (_build (plain_args 2 1)) None "raise") ∧
  queue_calls 4 (mkQueueRequestsFn 2 (_build (plain_args 2 1)) (Some mkIdentityStrategy)
                   "raise") five_items 0%nat
    = queue_calls 4 (mkQueueRequestsFn 2 (_build (plain_args 2 1))
                       (None : option IdentityStrategy) "raise") five_items 0%nat.
Proof.
  split; [reflexivity|]. split; [reflexivity|].
  apply (identity_strategy_is_no_strategy (Q:=list (Z * JSON)) 2 (_build (plain_args 2 1))
           "raise" _ _ five_items 0%nat 4); reflexivity.
Defined.

Lemma default_seeds_returned_witness :
  env_kwargs_fn (plain_args 2 3) = None ∧ env_seed_fn (plain_args 2 3) = None ∧
  sampling_seed_fn (plain_args 2 3) = None ∧
  make_dataset_sequence_requests_fn [A; B; C] (plain_args 2 3) true 11 9%nat
    = inr (initial [A; B; C] (plain_args 2 3) true 11 9%nat) ∧
  make_dataset_queue_requests_fn (plain_args 2 3) "return_empty" 9%nat
    = inr queue_of_groups ∧
  ∃ out r,
    (queue_fn queue_of_groups five_items 0%nat).1.1.1 = ret out ∧
    length out = 6%nat ∧
    out !! 5%nat = Some r ∧ env_seed r = Some 1 ∧ sampling_seed r = Some 3.
Proof.
  split; [reflexivity|]. split; [reflexivity|]. split; [reflexivity|].
  split; [reflexivity|]. split; [reflexivity|].
  destruct (default_seeds_returned (Q:=list (Z * JSON)) (plain_args 2 3) [A; B; C] true
              11 "return_empty" 9%nat (initial [A; B; C] (plain_args 2 3) true 11 9%nat)
              queue_of_groups five_items 0%nat 4)
    as (_ & Hqueue & _); [reflexivity..|].
  destruct Hqueue as (out & Hout & Hlen & _ & Hall); [discriminate|].
  destruct (Hall 1%nat 2%nat 1 B) as (r & Hr & He & Hs & _); [reflexivity|simpl; lia|].
  exists out, r. split; [exact Hout|]. split; [exact Hlen|].
  split; [exact Hr|]. split; [exact He|exact Hs].
Defined.

End MoreWitnesses.
